(** * l2go: packet codec, cipher engines, client registry and login state machine

    A shallow embedding of the Go sources of the gateway:
    - [packets]     : packets/packets.go (Buffer and Reader),
    - [protocol]    : the CryptoEngine of the client protocol handler,
    - [loginserver] : LoginServer.kickClient and LoginServer.handleClientPackets.

    Go values are modelled as follows.  A [byte] (and a [uint8]) is a
    [Byte.byte]; a [[]byte] and a Go [string] are [list byte]; wider
    unsigned integers are [Z] with their wrap-around written out; a method
    with a pointer receiver is a function in a state monad over the
    receiver; a run-time panic is the result [None], or the outcome
    [Panics] where the function also returns an error. *)

From Stdlib Require Import ZArith List Lia Bool Arith Permutation.
From Stdlib Require Import Strings.Byte.
Import ListNotations.
Open Scope Z_scope.

(** ** Bytes and fixed-width integers *)

Definition Z_of_byte (b : byte) : Z := Z.of_N (Byte.to_N b).

(** The conversion [byte(x)] of an integer: its low eight bits. *)
Definition byte_of_Z (z : Z) : byte :=
  match Byte.of_N (Z.to_N (Z.land z 255)) with
  | Some b => b
  | None => x00
  end.

Definition uint16 (z : Z) : Z := z mod 2 ^ 16.
Definition uint32 (z : Z) : Z := z mod 2 ^ 32.

(** [binary.LittleEndian]: the [n] low bytes of [v], least significant first,
    and the value of a little-endian byte sequence. *)
Fixpoint le_bytes (n : nat) (v : Z) : list byte :=
  match n with
  | O => []
  | S n' => byte_of_Z v :: le_bytes n' (Z.shiftr v 8)
  end.

Fixpoint le_value (bs : list byte) : Z :=
  match bs with
  | [] => 0
  | b :: rest => Z.lor (Z_of_byte b) (Z.shiftl (le_value rest) 8)
  end.

(** The builtin [copy(dst, src)]: the new contents of [dst] and the number
    of elements copied, [min(len(dst), len(src))]. *)
Definition copy {A : Type} (dst src : list A) : list A * nat :=
  (firstn (length dst) src ++ skipn (length src) dst,
   Nat.min (length dst) (length src)).

(** [make([]T, n)] filled with the zero value. *)
Definition make {A : Type} (zero : A) (n : nat) : list A := repeat zero n.

(** ** A state monad for methods with a pointer receiver *)

Definition State (S A : Type) : Type := S -> A * S.

Definition ret {S A : Type} (a : A) : State S A := fun s => (a, s).

Definition bind {S A B : Type} (m : State S A) (k : A -> State S B) : State S B :=
  fun s => let (a, s') := m s in k a s'.

Declare Scope state_scope.
Delimit Scope state_scope with state.
Notation "x <- m ;; k" := (bind m (fun x => k))
  (at level 61, m at next level, right associativity) : state_scope.
Notation "' p <- m ;; k" := (bind m (fun p => k))
  (at level 61, p pattern, m at next level, right associativity) : state_scope.
Open Scope state_scope.

(** ** packets/packets.go *)

Module packets.

Inductive error : Type :=
| ErrInsufficientData
| ErrInvalidString
| ErrBufferOverflow.

(** The contents of a [bytes.Buffer] that is only written to. *)
Definition Buffer : Type := list byte.

Definition NewBuffer : Buffer := [].

(** [bytes.Buffer.Write] appends and returns a nil error. *)
Definition Write (data : list byte) : State Buffer (option error) :=
  fun b => (None, b ++ data).

Definition NewBufferFromBytes (data : list byte) : Buffer :=
  snd (Write data NewBuffer).

(** [binary.Write(b, binary.LittleEndian, value)] for an unsigned integer of
    [n] bytes. *)
Definition binary_Write (n : nat) (value : Z) : State Buffer (option error) :=
  Write (le_bytes n value).

Definition WriteUInt64 (value : Z) : State Buffer (option error) := binary_Write 8 value.
Definition WriteUInt32 (value : Z) : State Buffer (option error) := binary_Write 4 value.
Definition WriteUInt16 (value : Z) : State Buffer (option error) := binary_Write 2 value.
Definition WriteUInt8 (value : byte) : State Buffer (option error) :=
  binary_Write 1 (Z_of_byte value).

Definition WriteBytes (data : list byte) : State Buffer (option error) :=
  Write data.

Definition WriteBool (value : bool) : State Buffer (option error) :=
  if value then WriteUInt8 x01 else WriteUInt8 x00.

Definition WritePacketHeader (opcode : byte) (length : Z) : State Buffer (option error) :=
  err <- WriteUInt16 length ;;
  match err with
  | Some e => ret (Some e)
  | None => WriteUInt8 opcode
  end.

Definition Bytes : State Buffer (list byte) := fun b => (b, b).
Definition Reset : State Buffer unit := fun _ => (tt, []).

Definition PrependLength : State Buffer (option error) :=
  data <- Bytes ;;
  let length := uint16 (Z.of_nat (List.length data)) in
  let '(err1, newBuf) := WriteUInt16 length NewBuffer in
  match err1 with
  | Some e => ret (Some e)
  | None =>
      let '(err2, newBuf) := WriteBytes data newBuf in
      match err2 with
      | Some e => ret (Some e)
      | None => _ <- Reset ;; Write newBuf
      end
  end.

(** *** Reader: a [bytes.Reader] over [s] with read index [i] *)

Record Reader : Type := mkReader { s : list byte; i : nat }.

Definition NewReader (buffer : list byte) : Reader := mkReader buffer 0.

(** [bytes.Reader.Len]: the number of unread bytes. *)
Definition Len : State Reader Z :=
  fun r => (Z.of_nat (List.length (s r) - i r), r).

(** [bytes.Reader.Read(buffer)]: at the end of the data nothing is read
    (0, io.EOF); otherwise the unread bytes are copied into [buffer] and the
    index advances by the number copied.  Returns the buffer and [n]. *)
Definition Read (buffer : list byte) : State Reader (list byte * nat) :=
  fun r =>
    if (List.length (s r) <=? i r)%nat then ((buffer, O), r)
    else
      let '(buffer', n) := copy buffer (skipn (i r) (s r)) in
      ((buffer', n), mkReader (s r) (i r + n)).

(** [bytes.Reader.ReadByte]: the zero byte (and io.EOF) at the end. *)
Definition ReadByte : State Reader byte :=
  fun r =>
    match nth_error (s r) (i r) with
    | None => (x00, r)
    | Some b => (b, mkReader (s r) (i r + 1))
    end.

(** [make([]byte, number)] panics for a negative [number]: the result is
    then [None]. *)
Definition ReadBytes (number : Z) : State Reader (option (list byte)) :=
  if number <? 0 then ret None
  else
    let buffer := make x00 (Z.to_nat number) in
    '(buffer, n) <- Read buffer ;;
    if (Z.of_nat n <? number) then ret (Some [])
    else ret (Some buffer).

Definition ReadUInt (width : nat) : State Reader Z :=
  let buffer := make x00 width in
  '(buffer, n) <- Read buffer ;;
  if (n <? width)%nat then ret 0
  else ret (le_value buffer).

Definition ReadUInt64 : State Reader Z := ReadUInt 8.
Definition ReadUInt32 : State Reader Z := ReadUInt 4.
Definition ReadUInt16 : State Reader Z := ReadUInt 2.

Definition ReadUInt8 : State Reader byte :=
  let buffer := make x00 1 in
  '(buffer, n) <- Read buffer ;;
  if (n <? 1)%nat then ret x00
  else ret (byte_of_Z (le_value buffer)).

(** [bytes.Equal]: nil and empty slices are equal. *)
Definition bytes_Equal (a b : list byte) : bool :=
  if list_eq_dec Byte.byte_eq_dec a b then true else false.

(** *** Strings

    A Go [string] is its bytes.  [for _, r := range value] decodes UTF-8:
    each step yields a rune and its width; an invalid or truncated encoding
    yields [RuneError] with width 1 (unicode/utf8). *)

Definition RuneError : Z := 0xFFFD.

Definition in_range (lo hi : Z) (b : byte) : bool :=
  (lo <=? Z_of_byte b) && (Z_of_byte b <=? hi).

(** The size of the encoding announced by a leading byte [s0 >= 0x80] and
    the range accepted for the second byte; [None] for an invalid leading
    byte. *)
Definition first (s0 : Z) : option (nat * Z * Z) :=
  if s0 <? 0xC2 then None
  else if s0 <=? 0xDF then Some (2%nat, 0x80, 0xBF)
  else if s0 =? 0xE0 then Some (3%nat, 0xA0, 0xBF)
  else if s0 <=? 0xEC then Some (3%nat, 0x80, 0xBF)
  else if s0 =? 0xED then Some (3%nat, 0x80, 0x9F)
  else if s0 <=? 0xEF then Some (3%nat, 0x80, 0xBF)
  else if s0 =? 0xF0 then Some (4%nat, 0x90, 0xBF)
  else if s0 <=? 0xF3 then Some (4%nat, 0x80, 0xBF)
  else if s0 =? 0xF4 then Some (4%nat, 0x80, 0x8F)
  else None.

Definition DecodeRune (str : list byte) : Z * nat :=
  match str with
  | [] => (RuneError, 0%nat)
  | b0 :: rest =>
      let s0 := Z_of_byte b0 in
      if s0 <? 0x80 then (s0, 1%nat)
      else
        match first s0 with
        | None => (RuneError, 1%nat)
        | Some (sz, lo, hi) =>
            if (List.length str <? sz)%nat then (RuneError, 1%nat)
            else
              match rest with
              | b1 :: b2 :: b3 :: _ =>
                  if negb (in_range lo hi b1) then (RuneError, 1%nat)
                  else if (sz <=? 2)%nat then
                    (Z.lor (Z.shiftl (Z.land s0 0x1F) 6) (Z.land (Z_of_byte b1) 0x3F), 2%nat)
                  else if negb (in_range 0x80 0xBF b2) then (RuneError, 1%nat)
                  else if (sz <=? 3)%nat then
                    (Z.lor (Z.lor (Z.shiftl (Z.land s0 0x0F) 12)
                                  (Z.shiftl (Z.land (Z_of_byte b1) 0x3F) 6))
                           (Z.land (Z_of_byte b2) 0x3F), 3%nat)
                  else if negb (in_range 0x80 0xBF b3) then (RuneError, 1%nat)
                  else
                    (Z.lor (Z.lor (Z.lor (Z.shiftl (Z.land s0 0x07) 18)
                                         (Z.shiftl (Z.land (Z_of_byte b1) 0x3F) 12))
                                  (Z.shiftl (Z.land (Z_of_byte b2) 0x3F) 6))
                           (Z.land (Z_of_byte b3) 0x3F), 4%nat)
              | [b1; b2] =>
                  if negb (in_range lo hi b1) then (RuneError, 1%nat)
                  else if (sz <=? 2)%nat then
                    (Z.lor (Z.shiftl (Z.land s0 0x1F) 6) (Z.land (Z_of_byte b1) 0x3F), 2%nat)
                  else if negb (in_range 0x80 0xBF b2) then (RuneError, 1%nat)
                  else
                    (Z.lor (Z.lor (Z.shiftl (Z.land s0 0x0F) 12)
                                  (Z.shiftl (Z.land (Z_of_byte b1) 0x3F) 6))
                           (Z.land (Z_of_byte b2) 0x3F), 3%nat)
              | [b1] =>
                  if negb (in_range lo hi b1) then (RuneError, 1%nat)
                  else
                    (Z.lor (Z.shiftl (Z.land s0 0x1F) 6) (Z.land (Z_of_byte b1) 0x3F), 2%nat)
              | [] => (RuneError, 1%nat)
              end
        end
  end.

(** The runes a [range] loop over [value] visits, in order. *)
Fixpoint runes_from (fuel : nat) (value : list byte) : list Z :=
  match fuel, value with
  | S fuel', _ :: _ =>
      let '(r, width) := DecodeRune value in
      r :: runes_from fuel' (skipn width value)
  | _, _ => []
  end.

Definition runes (value : list byte) : list Z :=
  runes_from (List.length value) value.

Fixpoint WriteString_range (rs : list Z) : State Buffer (option error) :=
  match rs with
  | [] => ret None
  | r :: rs' =>
      err <- WriteUInt16 (uint16 r) ;;
      match err with
      | Some e => ret (Some e)
      | None => WriteString_range rs'
      end
  end.

Definition WriteString (value : list byte) : State Buffer (option error) :=
  err <- WriteString_range (runes value) ;;
  match err with
  | Some e => ret (Some e)
  | None => WriteUInt16 0
  end.

(** The [for] loop of [ReadString], run for at most [fuel] iterations;
    [None] when the fuel does not suffice to reach the [break]. *)
Fixpoint ReadString_loop (fuel : nat) (result : list byte)
  : State Reader (option (list byte)) :=
  match fuel with
  | O => ret None
  | S fuel' =>
      first_byte <- ReadByte ;;
      second_byte <- ReadByte ;;
      if Byte.eqb first_byte x00 && Byte.eqb second_byte x00
      then ret (Some result)
      else ReadString_loop fuel' (result ++ [first_byte; second_byte])
  end.

(** [ReadString] with one iteration more than there are unread bytes, which
    always reaches the [break] (lemma [ReadString_loop_returns]). *)
Definition ReadString : State Reader (option (list byte)) :=
  fun r => ReadString_loop (S (List.length (s r) - i r)) [] r.

(** What the loop of [ReadString] makes of the unread bytes [l]: the bytes
    appended to the result and the number of bytes consumed.  A trailing
    single byte is paired with the zero byte that [ReadByte] gives at the
    end of the data. *)
Fixpoint read_pairs (l : list byte) : list byte * nat :=
  match l with
  | [] => ([], 0%nat)
  | [a] => if Byte.eqb a x00 then ([], 1%nat) else ([a; x00], 1%nat)
  | a :: b :: rest =>
      if Byte.eqb a x00 && Byte.eqb b x00 then ([], 2%nat)
      else let '(v, n) := read_pairs rest in (a :: b :: v, (2 + n)%nat)
  end.

(** Whether [l], read in pairs, holds the zero pair that ends a string. *)
Fixpoint has_terminator (l : list byte) : bool :=
  match l with
  | a :: b :: rest =>
      (Byte.eqb a x00 && Byte.eqb b x00) || has_terminator rest
  | _ => false
  end.

(** *** The remaining Buffer utilities *)

(** [Size] is [b.Len()]. *)
Definition Size : State Buffer Z :=
  fun b => (Z.of_nat (List.length b), b).

Definition IsEmpty : State Buffer bool :=
  fun b => (Z.of_nat (List.length b) =? 0, b).

Definition Clear : State Buffer unit := Reset.

(** [Clone] writes the contents to a new buffer, which it returns. *)
Definition Clone : State Buffer Buffer :=
  fun b => (snd (Write b NewBuffer), b).

(** *** Frames

    The two ways the Buffer builds [[uint16 length][uint8 opcode][payload]]:
    the header written first with a length chosen by the caller, or the
    length of the finished contents prepended. *)

Definition frame_with_header (opcode : byte) (length : Z) (payload : list byte)
  : list byte :=
  snd ((_ <- WritePacketHeader opcode length ;; WriteBytes payload) NewBuffer).

Definition frame_prepended (opcode : byte) (payload : list byte) : list byte :=
  snd ((_ <- WriteUInt8 opcode ;; _ <- WriteBytes payload ;; PrependLength) NewBuffer).

(** Reading a frame back with the Reader: the uint16 length, the uint8
    opcode, then all remaining bytes. *)
Definition read_frame : State Reader (Z * byte * option (list byte)) :=
  length <- ReadUInt16 ;;
  opcode <- ReadUInt8 ;;
  n <- Len ;;
  payload <- ReadBytes n ;;
  ret (length, opcode, payload).

End packets.

(** ** The protocol handler's CryptoEngine *)

Module protocol.

(** The interface [cipher.Block] of crypto/cipher: [Encrypt] and [Decrypt]
    map the source block to the contents written to the destination
    block. *)
Record Block : Type := mkBlock {
  BlockSize : nat;
  Encrypt : list byte -> list byte;
  Decrypt : list byte -> list byte
}.

(** What crypto/cipher requires of an implementation: a positive block size,
    blocks mapped to blocks, and [Decrypt] undoing [Encrypt]. *)
Record BlockLaws (c : Block) : Prop := mkBlockLaws {
  BlockSize_pos : (0 < BlockSize c)%nat;
  Encrypt_length : forall b, List.length b = BlockSize c ->
                             List.length (Encrypt c b) = BlockSize c;
  Decrypt_length : forall b, List.length b = BlockSize c ->
                             List.length (Decrypt c b) = BlockSize c;
  Decrypt_Encrypt : forall b, List.length b = BlockSize c ->
                              Decrypt c (Encrypt c b) = b
}.

(** The struct [xor.Cipher]. *)
Record Cipher : Type := mkCipher {
  InputKey : list byte;
  OutputKey : list byte
}.

(** Modelled from the spec: package gameserver/crypt/xor (xor.NewCipher,
    xor.Encrypt, xor.Decrypt) is not among the sources.  The world-channel
    cipher has "two independent key buffers, one for inbound and one for
    outbound traffic"; "each encrypt or decrypt operation consumes the
    current key state and deterministically advances it from the bytes just
    processed".  [xor_Encrypt raw key] and [xor_Decrypt raw key] give the new
    contents of the two slices they work on in place: the transformed data
    and the advanced key.  The advancement rule is left open by the spec and
    is not fixed here. *)
Record xor_package : Type := mkXor {
  xor_NewCipher : Cipher;
  xor_Encrypt : list byte -> list byte -> list byte * list byte;
  xor_Decrypt : list byte -> list byte -> list byte * list byte
}.

(** Modelled from the spec: what the spec asks of the missing xor package.
    The two key buffers start equal, and decrypting under the key state a
    message was encrypted under gives the message back (the spec's in-order
    round trip for a single message). *)
Record XorLaws (x : xor_package) : Prop := mkXorLaws {
  NewCipher_keys : InputKey (xor_NewCipher x) = OutputKey (xor_NewCipher x);
  xor_Decrypt_Encrypt : forall raw key,
      fst (xor_Decrypt x (fst (xor_Encrypt x raw key)) key) = raw
}.

Record CryptoEngine : Type := mkCryptoEngine {
  blowfishCipher : option Block;
  xorCipher : option Cipher
}.

Inductive error : Type :=
| ErrCreateBlowfish          (* "failed to create Blowfish cipher: ..." *)
| ErrBlowfishNotInitialized  (* "Blowfish cipher not initialized" *)
| ErrNotBlockMultiple        (* "data length must be multiple of block size" *)
| ErrXORNotInitialized.      (* "XOR cipher not initialized" *)

(** What a call does: return a value, return an error, or panic. *)
Inductive outcome (A : Type) : Type :=
| Returns (a : A)
| Fails (err : error)
| Panics.
Arguments Returns {A} a.
Arguments Fails {A} err.
Arguments Panics {A}.

Definition NewCryptoEngine : CryptoEngine := mkCryptoEngine None None.

(** [blowfish_NewCipher] is [blowfish.NewCipher] of golang.org/x/crypto:
    [None] for a key it rejects. *)
Definition InitializeBlowfish (blowfish_NewCipher : list byte -> option Block)
  (key : list byte) : State CryptoEngine (option error) :=
  fun ce =>
    match blowfish_NewCipher key with
    | None => (Some ErrCreateBlowfish, ce)
    | Some cipher => (None, mkCryptoEngine (Some cipher) (xorCipher ce))
    end.

Definition InitializeXOR (x : xor_package) (key : list byte)
  : State CryptoEngine (option error) :=
  fun ce =>
    let cipher := xor_NewCipher x in
    let cipher :=
      if (8 <=? List.length key)%nat then
        mkCipher (fst (copy (InputKey cipher) (firstn 8 key)))
                 (fst (copy (OutputKey cipher) (firstn 8 key)))
      else cipher in
    (None, mkCryptoEngine (blowfishCipher ce) (Some cipher)).

Definition HasBlowfish (ce : CryptoEngine) : bool :=
  match blowfishCipher ce with Some _ => true | None => false end.

Definition HasXOR (ce : CryptoEngine) : bool :=
  match xorCipher ce with Some _ => true | None => false end.

(** The slice expression [s[lo:hi]] within the length of [s]. *)
Definition slice {A : Type} (l : list A) (lo hi : nat) : list A :=
  firstn (hi - lo) (skipn lo l).

(** Writing [out] through the slice [dst[lo:hi]]. *)
Definition write_slice {A : Type} (dst : list A) (lo hi : nat) (out : list A)
  : list A :=
  firstn lo dst ++ fst (copy (slice dst lo hi) out) ++ skipn hi dst.

(** [for i := 0; i < len(src); i += blockSize { f(dst[i:i+blockSize],
    src[i:i+blockSize]) }], run for at most [fuel] iterations. *)
Fixpoint blocks_loop (fuel : nat) (f : list byte -> list byte) (blockSize : nat)
  (i : nat) (dst src : list byte) : list byte :=
  match fuel with
  | O => dst
  | S fuel' =>
      if (i <? List.length src)%nat then
        blocks_loop fuel' f blockSize (i + blockSize)
          (write_slice dst i (i + blockSize) (f (slice src i (i + blockSize))))
          src
      else dst
  end.

(** The first [k] blocks of [src], each transformed by [f]: what
    [blocks_loop] leaves in [dst] when [src] is [k] whole blocks (lemma
    [blocks_loop_map_blocks]). *)
Fixpoint map_blocks (k : nat) (f : list byte -> list byte) (blockSize : nat)
  (src : list byte) : list byte :=
  match k with
  | O => []
  | S k' =>
      f (firstn blockSize src)
        ++ map_blocks k' f blockSize (skipn blockSize src)
  end.

(** The division by a zero block size panics. *)
Definition EncryptBlowfish (data : list byte) (ce : CryptoEngine)
  : outcome (list byte) :=
  match blowfishCipher ce with
  | None => Fails ErrBlowfishNotInitialized
  | Some c =>
      let blockSize := BlockSize c in
      if (blockSize =? 0)%nat then Panics
      else
        let padded :=
          make x00 (((List.length data + blockSize - 1) / blockSize) * blockSize) in
        let padded := fst (copy padded data) in
        let encrypted := make x00 (List.length padded) in
        Returns (blocks_loop (List.length padded) (Encrypt c) blockSize 0
                             encrypted padded)
  end.

Definition DecryptBlowfish (data : list byte) (ce : CryptoEngine)
  : outcome (list byte) :=
  match blowfishCipher ce with
  | None => Fails ErrBlowfishNotInitialized
  | Some c =>
      let blockSize := BlockSize c in
      if (blockSize =? 0)%nat then Panics
      else if negb (List.length data mod blockSize =? 0)%nat then
        Fails ErrNotBlockMultiple
      else
        let decrypted := make x00 (List.length data) in
        Returns (blocks_loop (List.length data) (Decrypt c) blockSize 0
                             decrypted data)
  end.

(** [EncryptXOR] hands xor.Encrypt a copy of the data and a copy of the
    output key; the engine itself is only read.  The result pairs the
    returned value with the engine after the call. *)
Definition EncryptXOR (x : xor_package) (data : list byte)
  : State CryptoEngine (outcome (list byte)) :=
  fun ce =>
    match xorCipher ce with
    | None => (Fails ErrXORNotInitialized, ce)
    | Some cipher =>
        let encrypted := fst (copy (make x00 (List.length data)) data) in
        let key := fst (copy (make x00 (List.length (OutputKey cipher)))
                             (OutputKey cipher)) in
        let '(encrypted, key) := xor_Encrypt x encrypted key in
        (Returns encrypted, ce)
    end.

Definition DecryptXOR (x : xor_package) (data : list byte)
  : State CryptoEngine (outcome (list byte)) :=
  fun ce =>
    match xorCipher ce with
    | None => (Fails ErrXORNotInitialized, ce)
    | Some cipher =>
        let decrypted := fst (copy (make x00 (List.length data)) data) in
        let key := fst (copy (make x00 (List.length (InputKey cipher)))
                             (InputKey cipher)) in
        let '(decrypted, key) := xor_Decrypt x decrypted key in
        (Returns decrypted, ce)
    end.

(** Encrypting, and decrypting, a sequence of messages one after the other
    on the same engine; [None] as soon as one call does not return a
    value. *)
Fixpoint EncryptXOR_all (x : xor_package) (msgs : list (list byte))
  : State CryptoEngine (option (list (list byte))) :=
  match msgs with
  | [] => ret (Some [])
  | m :: rest =>
      r <- EncryptXOR x m ;;
      match r with
      | Returns c =>
          cs <- EncryptXOR_all x rest ;;
          ret (option_map (cons c) cs)
      | _ => ret None
      end
  end.

Fixpoint DecryptXOR_all (x : xor_package) (cts : list (list byte))
  : State CryptoEngine (option (list (list byte))) :=
  match cts with
  | [] => ret (Some [])
  | c :: rest =>
      r <- DecryptXOR x c ;;
      match r with
      | Returns m =>
          ms <- DecryptXOR_all x rest ;;
          ret (option_map (cons m) ms)
      | _ => ret None
      end
  end.

(** *** LoginProtocol, GameProtocol and Handler *)

(** The errors of [EncodePacket] and [DecodePacket]; the wrapped ones carry
    the engine's error. *)
Inductive packet_error : Type :=
| ErrEmptyPacket                           (* "empty packet" *)
| ErrEmptyDecryptedPacket                  (* "empty decrypted packet" *)
| ErrEncryptLoginPacket (cause : error)    (* "failed to encrypt login packet: %w" *)
| ErrDecryptLoginPacket (cause : error)    (* "failed to decrypt login packet: %w" *)
| ErrEncryptGamePacket (cause : error)     (* "failed to encrypt game packet: %w" *)
| ErrDecryptGamePacket (cause : error).    (* "failed to decrypt game packet: %w" *)

Inductive packet_outcome (A : Type) : Type :=
| Value (a : A)
| Failure (err : packet_error)
| Panic.
Arguments Value {A} a.
Arguments Failure {A} err.
Arguments Panic {A}.

(** [packet := make([]byte, 1+len(data)); packet[0] = opcode;
    copy(packet[1:], data)]. *)
Definition new_packet (opcode : byte) (data : list byte) : list byte :=
  let packet := make x00 (1 + List.length data) in
  let packet := opcode :: skipn 1 packet in
  firstn 1 packet ++ fst (copy (skipn 1 packet) data).

(** [opcode = packet[0]; if len(packet) > 1 { data = packet[1:] }], after
    the check that the packet is not empty. *)
Definition split_packet (packet : list byte)
  : packet_outcome (byte * list byte) :=
  match packet with
  | [] => Failure ErrEmptyDecryptedPacket
  | opcode :: data => Value (opcode, data)
  end.

Definition LoginProtocol_EncodePacket (opcode : byte) (data : list byte)
  (crypto : CryptoEngine) : packet_outcome (list byte) :=
  let packet := new_packet opcode data in
  if HasBlowfish crypto then
    match EncryptBlowfish packet crypto with
    | Returns encrypted => Value encrypted
    | Fails err => Failure (ErrEncryptLoginPacket err)
    | Panics => Panic
    end
  else Value packet.

Definition LoginProtocol_DecodePacket (raw : list byte) (crypto : CryptoEngine)
  : packet_outcome (byte * list byte) :=
  if (List.length raw =? 0)%nat then Failure ErrEmptyPacket
  else if HasBlowfish crypto then
    match DecryptBlowfish raw crypto with
    | Returns decrypted => split_packet decrypted
    | Fails err => Failure (ErrDecryptLoginPacket err)
    | Panics => Panic
    end
  else split_packet raw.

Definition GameProtocol_EncodePacket (x : xor_package) (opcode : byte)
  (data : list byte) : State CryptoEngine (packet_outcome (list byte)) :=
  fun crypto =>
    let packet := new_packet opcode data in
    if HasXOR crypto then
      let '(r, crypto) := EncryptXOR x packet crypto in
      match r with
      | Returns encrypted => (Value encrypted, crypto)
      | Fails err => (Failure (ErrEncryptGamePacket err), crypto)
      | Panics => (Panic, crypto)
      end
    else (Value packet, crypto).

Definition GameProtocol_DecodePacket (x : xor_package) (raw : list byte)
  : State CryptoEngine (packet_outcome (byte * list byte)) :=
  fun crypto =>
    if (List.length raw =? 0)%nat then (Failure ErrEmptyPacket, crypto)
    else if HasXOR crypto then
      let '(r, crypto) := DecryptXOR x raw crypto in
      match r with
      | Returns decrypted => (split_packet decrypted, crypto)
      | Fails err => (Failure (ErrDecryptGamePacket err), crypto)
      | Panics => (Panic, crypto)
      end
    else (split_packet raw, crypto).

(** The Handler: the two protocols hold no data, the locks order the calls;
    what is left is the engine. *)
Record Handler : Type := mkHandler {
  cryptoEngine : CryptoEngine
}.

Definition NewHandler : Handler := mkHandler NewCryptoEngine.

Definition Handler_EncodeLoginPacket (opcode : byte) (data : list byte)
  : State Handler (packet_outcome (list byte)) :=
  fun h => (LoginProtocol_EncodePacket opcode data (cryptoEngine h), h).

Definition Handler_DecodeLoginPacket (raw : list byte)
  : State Handler (packet_outcome (byte * list byte)) :=
  fun h => (LoginProtocol_DecodePacket raw (cryptoEngine h), h).

Definition Handler_EncodeGamePacket (x : xor_package) (opcode : byte)
  (data : list byte) : State Handler (packet_outcome (list byte)) :=
  fun h =>
    let '(r, crypto) := GameProtocol_EncodePacket x opcode data (cryptoEngine h) in
    (r, mkHandler crypto).

Definition Handler_DecodeGamePacket (x : xor_package) (raw : list byte)
  : State Handler (packet_outcome (byte * list byte)) :=
  fun h =>
    let '(r, crypto) := GameProtocol_DecodePacket x raw (cryptoEngine h) in
    (r, mkHandler crypto).

Definition Handler_InitializeBlowfish
  (blowfish_NewCipher : list byte -> option Block) (key : list byte)
  : State Handler (option error) :=
  fun h =>
    let '(err, crypto) :=
      InitializeBlowfish blowfish_NewCipher key (cryptoEngine h) in
    (err, mkHandler crypto).

Definition Handler_InitializeXOR (x : xor_package) (key : list byte)
  : State Handler (option error) :=
  fun h =>
    let '(err, crypto) := InitializeXOR x key (cryptoEngine h) in
    (err, mkHandler crypto).

End protocol.

(** ** The login server *)

Module loginserver.

(** models.Account *)
Record Account : Type := mkAccount {
  Id : Z;
  Username : list byte;
  Password : list byte;
  AccessLevel : Z
}.

(** A [net.Conn] is known by its identity. *)
Definition Conn : Type := nat.

(** models.Client, as far as the login server uses it; a nil [Socket] is
    [None]. *)
Record Client : Type := mkClient {
  Socket : option Conn;
  SessionID : list byte;
  account : Account
}.

(** An entry of config.GameServers. *)
Record GameServer : Type := mkGameServer {
  Options_Testing : bool
}.

Record ConfigObject : Type := mkConfig {
  AutoCreate : bool;
  GameServers : list GameServer
}.

(** The five uint32 counters. *)
Record loginServerStatus : Type := mkStatus {
  successfulAccountCreation : Z;
  failedAccountCreation : Z;
  successfulLogins : Z;
  failedLogins : Z;
  hackAttempts : Z
}.

Record LoginServer : Type := mkLoginServer {
  clients : list Client;
  config : ConfigObject;
  status : loginServerStatus
}.

(** The failure reasons of package serverpackets the handler uses. *)
Inductive reason : Type :=
| REASON_SYSTEM_ERROR
| REASON_USER_OR_PASS_WRONG
| REASON_ACCESS_FAILED.

(** A response buffer, named by the serverpackets constructor that built
    it. *)
Inductive packet : Type :=
| NewInitPacket
| NewLoginOkPacket (sessionID : list byte)
| NewLoginFailPacket (r : reason)
| NewPlayOkPacket
| NewPlayFailPacket (r : reason)
| NewServerListPacket (servers : list GameServer) (remoteAddr : list byte).

(** What the handler does to the network, in order. *)
Inductive event : Type :=
| Close (c : option Conn)
| Send (buffer : packet).

(** The Go integer types a field can have. *)
Inductive int_type : Type :=
| Tuint8 | Tuint16 | Tuint32 | Tuint64
| Tint8 | Tint16 | Tint32 | Tint64.

Definition bits (t : int_type) : Z :=
  match t with
  | Tuint8 | Tint8 => 8
  | Tuint16 | Tint16 => 16
  | Tuint32 | Tint32 => 32
  | Tuint64 | Tint64 => 64
  end.

Definition signed (t : int_type) : bool :=
  match t with
  | Tint8 | Tint16 | Tint32 | Tint64 => true
  | _ => false
  end.

(** The value of an arithmetic result in type [t]. *)
Definition wrap (t : int_type) (z : Z) : Z :=
  if signed t
  then (z + 2 ^ (bits t - 1)) mod 2 ^ bits t - 2 ^ (bits t - 1)
  else z mod 2 ^ bits t.

(** [a[idx]]: a panic ([None]) outside [0 <= idx < len(a)]. *)
Definition index {A : Type} (a : list A) (idx : Z) : option A :=
  if (0 <=? idx) && (idx <? Z.of_nat (List.length a))
  then nth_error a (Z.to_nat idx)
  else None.

(** [s[:n]]: a panic ([None]) when [n] exceeds the capacity, which is taken
    to be the length. *)
Definition prefix {A : Type} (s : list A) (n : nat) : option (list A) :=
  if (n <=? List.length s)%nat then Some (firstn n s) else None.

(** clientpackets.RequestAuthLogin, RequestPlay and RequestServerList. *)
Record RequestAuthLogin : Type := mkRequestAuthLogin {
  ral_Username : list byte;
  ral_Password : list byte
}.

Record RequestPlay : Type := mkRequestPlay {
  rp_SessionID : list byte;
  rp_ServerID : Z
}.

Record RequestServerList : Type := mkRequestServerList {
  rsl_SessionID : list byte
}.

(** The result of the accounts query: sql.ErrNoRows, another error, or the
    row. *)
Inductive query_result : Type :=
| ErrNoRows
| QueryError
| Row (a : Account).

(** What the collaborators answer while one packet is handled: the account
    store, bcrypt, the socket. *)
Record externals : Type := mkExternals {
  QueryRow : list byte -> query_result;
  GenerateFromPassword : list byte -> option (list byte);
  Exec_insert : list byte -> list byte -> Z -> option Z;
  CompareHashAndPassword : list byte -> list byte -> bool;
  RemoteAddr : list byte
}.

(** One connection being handled: the server, the handler's client and the
    network events so far.  The registry holds pointers to the clients; it
    is only searched by session identifier, which is never changed after the
    client is created, so its entries are kept by value. *)
Record handling : Type := mkHandling {
  server : LoginServer;
  client : Client;
  trace : list event
}.

Definition set_status (f : loginServerStatus -> loginServerStatus)
  (h : handling) : handling :=
  mkHandling
    (mkLoginServer (clients (server h)) (config (server h)) (f (status (server h))))
    (client h) (trace h).

Definition set_account (a : Account) (h : handling) : handling :=
  mkHandling (server h)
    (mkClient (Socket (client h)) (SessionID (client h)) a) (trace h).

(** [client.Send(buffer)]; its error is only printed. *)
Definition send (buffer : packet) (h : handling) : handling :=
  mkHandling (server h) (client h) (trace h ++ [Send buffer]).

Definition incr_successfulAccountCreation (st : loginServerStatus) :=
  mkStatus (uint32 (successfulAccountCreation st + 1)) (failedAccountCreation st)
    (successfulLogins st) (failedLogins st) (hackAttempts st).

Definition incr_failedAccountCreation (st : loginServerStatus) :=
  mkStatus (successfulAccountCreation st) (uint32 (failedAccountCreation st + 1))
    (successfulLogins st) (failedLogins st) (hackAttempts st).

Definition incr_successfulLogins (st : loginServerStatus) :=
  mkStatus (successfulAccountCreation st) (failedAccountCreation st)
    (uint32 (successfulLogins st + 1)) (failedLogins st) (hackAttempts st).

Definition incr_failedLogins (st : loginServerStatus) :=
  mkStatus (successfulAccountCreation st) (failedAccountCreation st)
    (successfulLogins st) (uint32 (failedLogins st + 1)) (hackAttempts st).

Definition incr_hackAttempts (st : loginServerStatus) :=
  mkStatus (successfulAccountCreation st) (failedAccountCreation st)
    (successfulLogins st) (failedLogins st) (uint32 (hackAttempts st + 1)).

(** The five counters of the status. *)
Definition counters : list (loginServerStatus -> Z) :=
  [successfulAccountCreation; failedAccountCreation; successfulLogins;
   failedLogins; hackAttempts].

(** A counter after a handling step: left alone or incremented as a
    uint32. *)
Definition stepped (old new : Z) : Prop :=
  new = old \/ new = uint32 (old + 1).

Definition status_stepped (old new : loginServerStatus) : Prop :=
  Forall (fun counter => stepped (counter old) (counter new)) counters.

(** The loop of [kickClient] from index [i] on: at the first entry with the
    client's session identifier the tail is shifted down by one, the last
    slot is set to nil and the slice is shortened by one. *)
Fixpoint kickClient_range (all : list Client) (i : nat) (items : list Client)
  (sessionID : list byte) : list Client :=
  match items with
  | [] => all
  | item :: rest =>
      if packets.bytes_Equal (SessionID item) sessionID then
        let shifted := firstn i all ++ fst (copy (skipn i all) (skipn (i + 1) all)) in
        firstn (List.length shifted - 1) shifted
      else kickClient_range all (i + 1) rest sessionID
  end.

(** [kickClient]: closing a nil socket panics ([None]). *)
Definition kickClient (c : Client) (l : LoginServer) (tr : list event)
  : option (LoginServer * list event) :=
  match Socket c with
  | None => None
  | Some _ =>
      Some (mkLoginServer
              (kickClient_range (clients l) 0 (clients l) (SessionID c))
              (config l) (status l),
            tr ++ [Close (Socket c)])
  end.

(** One turn of the accept loop of [Start]: the new client gets what
    [Accept] returned as its socket (nil when it failed) and is appended to
    the registry; only when [Accept] succeeded is a handler started for it,
    which the result names. *)
Definition accept_client (newClient : Client) (accepted : option Conn)
  (l : LoginServer) : LoginServer * option Client :=
  let client := mkClient accepted (SessionID newClient) (account newClient) in
  let l := mkLoginServer (clients l ++ [client]) (config l) (status l) in
  match accepted with
  | None => (l, None)
  | Some _ => (l, Some client)
  end.

Section Handler.

(** Declared in parts of the repository that are not among the sources: the
    constant [ACCESS_LEVEL_PLAYER], the type of [RequestPlay.ServerID] and
    the parsers of package clientpackets. *)
Variable ACCESS_LEVEL_PLAYER : Z.
Variable ServerID_type : int_type.
Variable NewRequestAuthLogin : list byte -> RequestAuthLogin.
Variable NewRequestPlay : list byte -> RequestPlay.
Variable NewRequestServerList : list byte -> RequestServerList.

(** [case 00]: the auth-login request. *)
Definition handle_RequestAuthLogin (ext : externals) (data : list byte)
  (h : handling) : option handling :=
  let requestAuthLogin := NewRequestAuthLogin data in
  let '(buffer, h) :=
    match QueryRow ext (ral_Username requestAuthLogin) with
    | ErrNoRows =>
        if AutoCreate (config (server h)) then
          match GenerateFromPassword ext (ral_Password requestAuthLogin) with
          | None =>
              (NewLoginFailPacket REASON_SYSTEM_ERROR,
               set_status incr_failedAccountCreation h)
          | Some hashedPassword =>
              match Exec_insert ext (ral_Username requestAuthLogin)
                      hashedPassword ACCESS_LEVEL_PLAYER with
              | None =>
                  (NewLoginFailPacket REASON_SYSTEM_ERROR,
                   set_status incr_failedAccountCreation h)
              | Some accountId =>
                  let h := set_account
                             (mkAccount accountId (ral_Username requestAuthLogin)
                                        hashedPassword ACCESS_LEVEL_PLAYER) h in
                  (NewLoginOkPacket (SessionID (client h)),
                   set_status incr_successfulAccountCreation h)
              end
          end
        else
          (NewLoginFailPacket REASON_USER_OR_PASS_WRONG,
           set_status incr_failedLogins h)
    | QueryError => (NewLoginFailPacket REASON_SYSTEM_ERROR, h)
    | Row a =>
        let h := set_account a h in
        if negb (CompareHashAndPassword ext (Password (account (client h)))
                   (ral_Password requestAuthLogin)) then
          (NewLoginFailPacket REASON_USER_OR_PASS_WRONG,
           set_status incr_failedLogins h)
        else if AccessLevel (account (client h)) >=? ACCESS_LEVEL_PLAYER then
          (NewLoginOkPacket (SessionID (client h)),
           set_status incr_successfulLogins h)
        else
          (NewLoginFailPacket REASON_ACCESS_FAILED,
           set_status incr_failedLogins h)
    end in
  Some (send buffer h).

(** The condition of [case 02]; [&&] and [||] evaluate their right operand
    only when needed, so the directory is indexed only when
    [len(GameServers) >= int(ServerID)]. *)
Definition play_condition (requestPlay : RequestPlay) (h : handling)
  : option bool :=
  let servers := GameServers (config (server h)) in
  if Z.of_nat (List.length servers) >=? wrap Tint64 (rp_ServerID requestPlay) then
    match index servers (wrap ServerID_type (rp_ServerID requestPlay - 1)) with
    | None => None
    | Some gs =>
        Some (negb (Options_Testing gs)
              || (AccessLevel (account (client h)) >? ACCESS_LEVEL_PLAYER))
    end
  else Some false.

(** [case 02]: the play request. *)
Definition handle_RequestPlay (ext : externals) (data : list byte)
  (h : handling) : option handling :=
  let requestPlay := NewRequestPlay data in
  match play_condition requestPlay h with
  | None => None
  | Some true =>
      match prefix (SessionID (client h)) 8 with
      | None => None
      | Some own =>
          if negb (packets.bytes_Equal own (rp_SessionID requestPlay)) then
            Some (send (NewLoginFailPacket REASON_ACCESS_FAILED)
                       (set_status incr_hackAttempts h))
          else Some (send NewPlayOkPacket h)
      end
  | Some false =>
      Some (send (NewPlayFailPacket REASON_ACCESS_FAILED)
                 (set_status incr_hackAttempts h))
  end.

(** [case 05]: the server-list request.  [client.Socket.RemoteAddr()] on a
    nil socket panics. *)
Definition handle_RequestServerList (ext : externals) (data : list byte)
  (h : handling) : option handling :=
  let requestServerList := NewRequestServerList data in
  match prefix (SessionID (client h)) 8 with
  | None => None
  | Some own =>
      if negb (packets.bytes_Equal own (rsl_SessionID requestServerList)) then
        Some (send (NewLoginFailPacket REASON_ACCESS_FAILED)
                   (set_status incr_hackAttempts h))
      else
        match Socket (client h) with
        | None => None
        | Some _ =>
            Some (send (NewServerListPacket (GameServers (config (server h)))
                                            (RemoteAddr ext)) h)
        end
  end.

(** The [switch] on the opcode of a received packet. *)
Definition handle_packet (ext : externals) (opcode : Z) (data : list byte)
  (h : handling) : option handling :=
  if opcode =? 0 then handle_RequestAuthLogin ext data h
  else if opcode =? 2 then handle_RequestPlay ext data h
  else if opcode =? 5 then handle_RequestServerList ext data h
  else Some h.

(** What [client.Receive()] returns. *)
Inductive received : Type :=
| ReceiveError
| Packet (opcode : Z) (data : list byte).

(** How a run of the handler stands after the packets given to it. *)
Inductive run : Type :=
| Open (h : handling)      (* waiting in Receive: the connection is open *)
| Kicked (h : handling)    (* the loop was left and kickClient has run *)
| Panicked.

Definition kicked (h : handling) : run :=
  match kickClient (client h) (server h) (trace h) with
  | None => Panicked
  | Some (l, tr) => Kicked (mkHandling l (client h) tr)
  end.

(** The [for] loop over what Receive returns, each packet with the answers
    of the collaborators while it is handled. *)
Fixpoint receive_loop (inputs : list (externals * received)) (h : handling)
  : run :=
  match inputs with
  | [] => Open h
  | (_, ReceiveError) :: _ => kicked h
  | (ext, Packet opcode data) :: rest =>
      match handle_packet ext opcode data h with
      | None => Panicked
      | Some h' => receive_loop rest h'
      end
  end.

(** [handleClientPackets]: the init packet, then the loop; [kickClient] is
    deferred.  [init_sent] tells whether sending the init packet
    succeeded. *)
Definition handleClientPackets (init_sent : bool)
  (inputs : list (externals * received)) (h : handling) : run :=
  let h := send NewInitPacket h in
  if init_sent then receive_loop inputs h else kicked h.

End Handler.

End loginserver.

(** ** Sample instances of the interfaces

    A block cipher and an xor package that satisfy the laws, to run the
    engines on concrete data. *)

Module samples.

Definition bxor (a b : byte) : byte :=
  byte_of_Z (Z.lxor (Z_of_byte a) (Z_of_byte b)).

(** A block cipher of block size 8: the block reversed and masked with a key
    byte. *)
Definition mask_block (k : byte) : protocol.Block :=
  protocol.mkBlock 8
    (fun b => map (bxor k) (rev b))
    (fun b => rev (map (bxor k) b)).

(** Like blowfish.NewCipher, it rejects the empty key. *)
Definition mask_NewCipher (key : list byte) : option protocol.Block :=
  match key with
  | [] => None
  | k :: _ => Some (mask_block k)
  end.

(** A rolling-key stream cipher: each byte is masked with a key byte and the
    previous ciphertext byte, and the key advances by the number of bytes
    processed. *)
Fixpoint rolling_encrypt (raw key : list byte) (i : nat) (temp : byte)
  : list byte :=
  match raw with
  | [] => []
  | b :: rest =>
      let c := bxor (bxor b (nth (i mod 8) key x00)) temp in
      c :: rolling_encrypt rest key (i + 1) c
  end.

Fixpoint rolling_decrypt (raw key : list byte) (i : nat) (temp : byte)
  : list byte :=
  match raw with
  | [] => []
  | c :: rest =>
      bxor (bxor c (nth (i mod 8) key x00)) temp
        :: rolling_decrypt rest key (i + 1) c
  end.

Definition advance (key : list byte) (n : nat) : list byte :=
  fst (copy key (le_bytes 4 (le_value (firstn 4 key) + Z.of_nat n))).

Definition rolling_key : list byte := [x94; x35; x00; x00; xa1; x6c; x54; x87].

Definition rolling_xor : protocol.xor_package :=
  protocol.mkXor
    (protocol.mkCipher rolling_key rolling_key)
    (fun raw key => (rolling_encrypt raw key 0 x00, advance key (List.length raw)))
    (fun raw key => (rolling_decrypt raw key 0 x00, advance key (List.length raw))).

(** Parsers for the three requests, reading the payload with a
    packets.Reader: eight bytes of session identifier, then for the play
    request one byte of server id; for the login request a user name of 14
    bytes and a password of 16. *)
Definition sample_NewRequestAuthLogin (data : list byte)
  : loginserver.RequestAuthLogin :=
  loginserver.mkRequestAuthLogin (firstn 14 data) (firstn 16 (skipn 14 data)).

Definition sample_NewRequestPlay (data : list byte) : loginserver.RequestPlay :=
  let '(sessionID, r) := packets.ReadBytes 8 (packets.NewReader data) in
  let '(serverID, _) := packets.ReadUInt8 r in
  loginserver.mkRequestPlay
    (match sessionID with Some b => b | None => [] end) (Z_of_byte serverID).

Definition sample_NewRequestServerList (data : list byte)
  : loginserver.RequestServerList :=
  let '(sessionID, _) := packets.ReadBytes 8 (packets.NewReader data) in
  loginserver.mkRequestServerList
    (match sessionID with Some b => b | None => [] end).

(** A connected client with a session identifier of 16 bytes, on a server
    with one realm that is not a testing realm. *)
Definition sample_client : loginserver.Client :=
  loginserver.mkClient (Some 7%nat)
    [x01; x02; x03; x04; x05; x06; x07; x08;
     x09; x0a; x0b; x0c; x0d; x0e; x0f; x10]
    (loginserver.mkAccount 0 [] [] 0).

Definition sample_handling (st : loginserver.loginServerStatus)
  : loginserver.handling :=
  loginserver.mkHandling
    (loginserver.mkLoginServer [sample_client]
       (loginserver.mkConfig true [loginserver.mkGameServer false]) st)
    sample_client [].

Definition zero_status : loginserver.loginServerStatus :=
  loginserver.mkStatus 0 0 0 0 0.

(** The collaborators: an empty account store that accepts insertions, a
    hash that is the password itself. *)
Definition sample_externals : loginserver.externals :=
  loginserver.mkExternals
    (fun _ => loginserver.ErrNoRows)
    (fun password => Some password)
    (fun _ _ _ => Some 1)
    packets.bytes_Equal
    [].

(** An account store that holds one account, with the password [password],
    and a bcrypt whose hash is the password itself. *)
Definition externals_with_account (stored : loginserver.Account)
  : loginserver.externals :=
  loginserver.mkExternals
    (fun _ => loginserver.Row stored)
    (fun password => Some password)
    (fun _ _ _ => Some 1)
    packets.bytes_Equal
    [].

(** An account store that fails. *)
Definition externals_failing : loginserver.externals :=
  loginserver.mkExternals
    (fun _ => loginserver.QueryError)
    (fun _ => None)
    (fun _ _ _ => None)
    (fun _ _ => false)
    [].

(** An administrator account, two above the player level 0. *)
Definition sample_admin : loginserver.Account :=
  loginserver.mkAccount 42 [x61] [x70; x77] 2.

(** The sample server with its realm turned into a testing realm. *)
Definition sample_testing_handling : loginserver.handling :=
  loginserver.mkHandling
    (loginserver.mkLoginServer [sample_client]
       (loginserver.mkConfig false [loginserver.mkGameServer true])
       zero_status)
    sample_client [].

(** A play request for server [id] with the session prefix [sid]. *)
Definition play_request (sid : list byte) (id : byte) : list byte :=
  sid ++ [id].

End samples.

(** * Properties *)

(** ** Bytes *)

Lemma Z_of_byte_range (b : byte) : 0 <= Z_of_byte b < 256.
Proof.
  unfold Z_of_byte. pose proof (Byte.to_N_bounded b). lia.
Qed.

Lemma land_255 (z : Z) : Z.land z 255 = z mod 256.
Proof.
  change 255 with (Z.ones 8). rewrite Z.land_ones by lia. reflexivity.
Qed.

Lemma Z_of_byte_of_Z (z : Z) : Z_of_byte (byte_of_Z z) = z mod 256.
Proof.
  unfold Z_of_byte, byte_of_Z. rewrite land_255.
  pose proof (Z.mod_pos_bound z 256 ltac:(lia)) as Hb.
  destruct (Byte.of_N (Z.to_N (z mod 256))) eqn:E.
  - apply Byte.to_of_N in E. rewrite E. lia.
  - apply Byte.of_N_None_iff in E. lia.
Qed.

Lemma byte_of_Z_of_byte (b : byte) : byte_of_Z (Z_of_byte b) = b.
Proof.
  unfold byte_of_Z, Z_of_byte. rewrite land_255.
  pose proof (Byte.to_N_bounded b).
  rewrite Z.mod_small by lia. rewrite N2Z.id, Byte.of_to_N. reflexivity.
Qed.

Lemma Z_of_byte_inj (a b : byte) : Z_of_byte a = Z_of_byte b -> a = b.
Proof.
  intros H. rewrite <- (byte_of_Z_of_byte a), <- (byte_of_Z_of_byte b).
  now rewrite H.
Qed.

(** A little-endian sequence of [n] bytes holds the value modulo [2^(8n)]. *)
Lemma le_value_le_bytes (n : nat) (v : Z) :
  le_value (le_bytes n v) = v mod 2 ^ (8 * Z.of_nat n).
Proof.
  revert v. induction n as [|n IH]; intros v.
  - simpl. now rewrite Z.mod_1_r.
  - cbn [le_bytes le_value]. rewrite IH, Z_of_byte_of_Z.
    change 256 with (2 ^ 8).
    apply Z.bits_inj'. intros k Hk.
    rewrite Z.lor_spec.
    destruct (Z.ltb_spec k 8) as [Hlt|Hge].
    + rewrite Z.mod_pow2_bits_low by lia.
      rewrite Z.shiftl_spec_low by lia.
      rewrite Z.mod_pow2_bits_low by lia.
      now rewrite orb_false_r.
    + rewrite Z.mod_pow2_bits_high by lia.
      rewrite Z.shiftl_spec by lia. cbn [orb].
      destruct (Z.ltb_spec k (8 * Z.of_nat (S n))) as [Hl|Hg].
      * rewrite !Z.mod_pow2_bits_low by lia.
        rewrite Z.shiftr_spec by lia. f_equal. lia.
      * rewrite !Z.mod_pow2_bits_high by lia. reflexivity.
Qed.

Lemma le_value_single (b : byte) : byte_of_Z (le_value [b]) = b.
Proof.
  cbn [le_value]. rewrite Z.shiftl_0_l, Z.lor_0_r. apply byte_of_Z_of_byte.
Qed.

(** ** packets.Reader *)

Lemma Read_enough (buffer : list byte) (r : packets.Reader) :
  (0 < List.length buffer <= List.length (packets.s r) - packets.i r)%nat ->
  packets.Read buffer r =
    ((firstn (List.length buffer) (skipn (packets.i r) (packets.s r)),
      List.length buffer),
     packets.mkReader (packets.s r) (packets.i r + List.length buffer)).
Proof.
  intros [Hpos Hle]. unfold packets.Read.
  destruct (Nat.leb_spec (List.length (packets.s r)) (packets.i r)); [lia|].
  unfold copy. rewrite length_skipn.
  rewrite (skipn_all2 buffer) by lia.
  rewrite app_nil_r, Nat.min_l by lia. reflexivity.
Qed.

Lemma Read_short (buffer : list byte) (r : packets.Reader) :
  (List.length (packets.s r) - packets.i r < List.length buffer)%nat ->
  exists buffer',
    packets.Read buffer r =
      ((buffer', List.length (packets.s r) - packets.i r)%nat,
       packets.mkReader (packets.s r)
         (Nat.max (packets.i r) (List.length (packets.s r)))).
Proof.
  intros Hlt. unfold packets.Read.
  destruct (Nat.leb_spec (List.length (packets.s r)) (packets.i r)).
  - exists buffer. destruct r as [s i]; cbn in *.
    replace (List.length s - i)%nat with 0%nat by lia.
    now rewrite Nat.max_l by lia.
  - unfold copy. rewrite length_skipn. eexists.
    rewrite Nat.min_r by lia.
    replace (packets.i r + (List.length (packets.s r) - packets.i r))%nat
      with (Nat.max (packets.i r) (List.length (packets.s r))) by lia.
    reflexivity.
Qed.

Lemma length_make {A : Type} (z : A) (n : nat) : List.length (make z n) = n.
Proof. apply repeat_length. Qed.

Lemma ReadBytes_enough (number : Z) (r : packets.Reader) :
  0 <= number <= Z.of_nat (List.length (packets.s r) - packets.i r) ->
  packets.ReadBytes number r =
    (Some (firstn (Z.to_nat number) (skipn (packets.i r) (packets.s r))),
     packets.mkReader (packets.s r) (packets.i r + Z.to_nat number)).
Proof.
  intros [H0 Hle]. unfold packets.ReadBytes.
  destruct (Z.ltb_spec number 0); [lia|].
  unfold bind, ret.
  destruct (Nat.eq_dec (Z.to_nat number) 0) as [Hz|Hnz].
  - rewrite Hz. cbn [make repeat firstn]. unfold packets.Read.
    cbn [List.length copy firstn skipn app Nat.min].
    rewrite Nat.add_0_r.
    destruct (List.length (packets.s r) <=? packets.i r)%nat;
      destruct (skipn (packets.i r) (packets.s r));
      cbn [List.length skipn app Nat.min];
      (destruct (Z.ltb_spec (Z.of_nat 0) number); [lia|]);
      destruct r; reflexivity.
  - rewrite Read_enough by (rewrite length_make; lia).
    rewrite length_make.
    destruct (Z.ltb_spec (Z.of_nat (Z.to_nat number)) number); [lia|].
    reflexivity.
Qed.

(** C10: [ReadBytes(n)] is all-or-nothing.  For a count [n >= 0]: when fewer
    than [n] bytes remain it returns the empty slice and the reader is left
    at the end of its data (the bytes that were available are consumed);
    when at least [n] bytes remain it returns exactly the next [n] bytes and
    the reader advances by [n]. *)
Theorem ReadBytes_all_or_nothing (number : Z) (r : packets.Reader) :
  0 <= number ->
  let remaining := (List.length (packets.s r) - packets.i r)%nat in
  (Z.of_nat remaining < number ->
     packets.ReadBytes number r =
       (Some [],
        packets.mkReader (packets.s r)
          (Nat.max (packets.i r) (List.length (packets.s r)))))
  /\ (number <= Z.of_nat remaining ->
     packets.ReadBytes number r =
       (Some (firstn (Z.to_nat number) (skipn (packets.i r) (packets.s r))),
        packets.mkReader (packets.s r) (packets.i r + Z.to_nat number))
     /\ List.length (firstn (Z.to_nat number) (skipn (packets.i r) (packets.s r)))
        = Z.to_nat number).
Proof.
  intros H0 remaining. split.
  - intros Hlt. unfold packets.ReadBytes.
    destruct (Z.ltb_spec number 0); [lia|].
    unfold bind, ret.
    destruct (Read_short (make x00 (Z.to_nat number)) r) as [buffer' E].
    { rewrite length_make. lia. }
    rewrite E.
    destruct (Z.ltb_spec
                (Z.of_nat (List.length (packets.s r) - packets.i r)) number);
      [reflexivity | lia].
  - intros Hle. split.
    + apply ReadBytes_enough. lia.
    + rewrite length_firstn, length_skipn. lia.
Qed.

(** At the reader [[1;2;3]] with index 1, two bytes remain: asking for three
    gives the empty slice and consumes the two, asking for two gives them. *)
Lemma ReadBytes_all_or_nothing_witness :
  packets.ReadBytes 3 (packets.mkReader [x01; x02; x03] 1)
    = (Some [], packets.mkReader [x01; x02; x03] 3)
  /\ packets.ReadBytes 2 (packets.mkReader [x01; x02; x03] 1)
    = (Some [x02; x03], packets.mkReader [x01; x02; x03] 3).
Proof.
  split.
  - destruct (ReadBytes_all_or_nothing 3 (packets.mkReader [x01; x02; x03] 1))
      as [Hshort _]; [lia|].
    apply Hshort. simpl. lia.
  - destruct (ReadBytes_all_or_nothing 2 (packets.mkReader [x01; x02; x03] 1))
      as [_ Henough]; [lia|].
    apply Henough. simpl. lia.
Defined.

(** ** Frames *)

Lemma ReadUInt_enough (width : nat) (r : packets.Reader) :
  (0 < width <= List.length (packets.s r) - packets.i r)%nat ->
  packets.ReadUInt width r =
    (le_value (firstn width (skipn (packets.i r) (packets.s r))),
     packets.mkReader (packets.s r) (packets.i r + width)).
Proof.
  intros H. unfold packets.ReadUInt, bind, ret.
  rewrite Read_enough by (rewrite length_make; lia).
  rewrite length_make.
  destruct (Nat.ltb_spec width width); [lia | reflexivity].
Qed.

Lemma ReadUInt8_enough (r : packets.Reader) :
  (1 <= List.length (packets.s r) - packets.i r)%nat ->
  packets.ReadUInt8 r =
    (byte_of_Z (le_value (firstn 1 (skipn (packets.i r) (packets.s r)))),
     packets.mkReader (packets.s r) (packets.i r + 1)).
Proof.
  intros H. unfold packets.ReadUInt8, bind, ret.
  rewrite Read_enough by (rewrite length_make; lia).
  reflexivity.
Qed.

Lemma frame_with_header_bytes (opcode : byte) (length : Z) (payload : list byte) :
  packets.frame_with_header opcode length payload =
    le_bytes 2 length ++ [opcode] ++ payload.
Proof.
  unfold packets.frame_with_header, packets.WritePacketHeader,
    packets.WriteUInt16, packets.WriteUInt8, packets.WriteBytes,
    packets.binary_Write, packets.Write, packets.NewBuffer, bind, ret.
  cbn [snd app le_bytes]. now rewrite byte_of_Z_of_byte.
Qed.

Lemma frame_prepended_bytes (opcode : byte) (payload : list byte) :
  packets.frame_prepended opcode payload =
    le_bytes 2 (uint16 (Z.of_nat (List.length payload) + 1))
      ++ [opcode] ++ payload.
Proof.
  unfold packets.frame_prepended, packets.PrependLength, packets.Bytes,
    packets.Reset, packets.WriteUInt16, packets.WriteUInt8, packets.WriteBytes,
    packets.binary_Write, packets.Write, packets.NewBuffer, bind, ret.
  cbn [snd fst app le_bytes List.length]. rewrite byte_of_Z_of_byte.
  replace (Z.of_nat (S (List.length payload)))
    with (Z.of_nat (List.length payload) + 1) by lia.
  reflexivity.
Qed.

(** Reading back any frame [[length][opcode][payload]]. *)
Lemma read_frame_bytes (length : Z) (opcode : byte) (payload : list byte) :
  fst (packets.read_frame
         (packets.NewReader (le_bytes 2 length ++ [opcode] ++ payload)))
  = (uint16 length, opcode, Some payload).
Proof.
  unfold packets.read_frame, packets.ReadUInt16, packets.NewReader, bind, ret.
  rewrite ReadUInt_enough by (cbn; lia).
  cbn [packets.s packets.i skipn app le_bytes firstn Nat.add].
  rewrite ReadUInt8_enough by (cbn; lia).
  cbn [packets.s packets.i skipn app firstn Nat.add packets.Len List.length Nat.sub].
  rewrite ReadBytes_enough by (cbn; lia).
  cbn [packets.s packets.i skipn fst].
  rewrite Nat2Z.id, Nat.sub_0_r, firstn_all, le_value_single.
  change [byte_of_Z length; byte_of_Z (Z.shiftr length 8)]
    with (le_bytes 2 length).
  rewrite le_value_le_bytes. reflexivity.
Qed.

(** C1 (amended): reading a frame back returns the opcode and the payload it
    was built from, for both builders.  The length field of a frame built
    with [WritePacketHeader] is the length the caller passed; the length
    field [PrependLength] writes is the number of bytes after the field (the
    opcode and the payload, two less than the whole frame) as a uint16. *)
Theorem frame_round_trip (opcode : byte) (length : Z) (payload : list byte) :
  fst (packets.read_frame
         (packets.NewReader (packets.frame_with_header opcode length payload)))
    = (uint16 length, opcode, Some payload)
  /\ fst (packets.read_frame
            (packets.NewReader (packets.frame_prepended opcode payload)))
    = (uint16 (Z.of_nat (List.length (packets.frame_prepended opcode payload)) - 2),
       opcode, Some payload).
Proof.
  split.
  - rewrite frame_with_header_bytes. apply read_frame_bytes.
  - rewrite frame_prepended_bytes at 1. rewrite read_frame_bytes.
    rewrite frame_prepended_bytes.
    cbn [List.length app le_bytes].
    replace (Z.of_nat (S (S (S (List.length payload)))) - 2)
      with (Z.of_nat (List.length payload) + 1) by lia.
    unfold uint16. rewrite Z.mod_mod by lia. reflexivity.
Qed.

(** C1 as stated fails: the frame [PrependLength] builds for opcode 0 and an
    empty payload has three bytes and the length field 1; and no uint16
    holds the total length 65536 of a frame with a payload of 65533 bytes,
    whose header written with [uint16(65536)] reads 0. *)
Lemma frame_length_field_is_not_total_length :
  (let frame := packets.frame_prepended x00 [] in
   let '(length, opcode, payload) :=
     fst (packets.read_frame (packets.NewReader frame)) in
   length = 1 /\ Z.of_nat (List.length frame) = 3
   /\ length <> Z.of_nat (List.length frame))
  /\ (let payload := repeat x00 (Z.to_nat 65533) in
      let frame := packets.frame_with_header x00 (uint16 65536) payload in
      let '(length, opcode, payload) :=
        fst (packets.read_frame (packets.NewReader frame)) in
      length = 0 /\ Z.of_nat (List.length frame) = 65536
      /\ length <> Z.of_nat (List.length frame)).
Proof.
  split.
  - vm_compute. repeat split; discriminate.
  - cbv zeta.
    rewrite frame_with_header_bytes, read_frame_bytes.
    rewrite !length_app, repeat_length.
    vm_compute. repeat split; discriminate.
Qed.

(** ** Strings *)

(** A property of all lists, proved two elements at a time. *)
Lemma pair_induction {A : Type} (P : list A -> Prop) :
  P [] -> (forall a, P [a]) -> (forall a b l, P l -> P (a :: b :: l)) ->
  forall l, P l.
Proof.
  intros H0 H1 H2 l.
  enough (P l /\ forall a, P (a :: l)) by tauto.
  induction l as [|x l [IHl IHx]]; split; auto.
Qed.

Lemma ReadByte_at (pre : list byte) (b : byte) (rest : list byte) :
  packets.ReadByte (packets.mkReader (pre ++ b :: rest) (List.length pre))
  = (b, packets.mkReader (pre ++ b :: rest) (List.length pre + 1)).
Proof.
  unfold packets.ReadByte. cbn [packets.s packets.i].
  rewrite nth_error_app2 by lia. rewrite Nat.sub_diag. reflexivity.
Qed.

Lemma ReadByte_eof (r : packets.Reader) :
  (List.length (packets.s r) <= packets.i r)%nat ->
  packets.ReadByte r = (x00, r).
Proof.
  intros H. unfold packets.ReadByte.
  apply nth_error_None in H. now rewrite H.
Qed.

Lemma eqb_x00 : Byte.eqb x00 x00 = true.
Proof. reflexivity. Qed.

Lemma ReadString_loop_read_pairs (l : list byte) :
  forall (pre acc : list byte) (fuel : nat),
    (List.length l < fuel)%nat ->
    packets.ReadString_loop fuel acc
      (packets.mkReader (pre ++ l) (List.length pre))
    = (Some (acc ++ fst (packets.read_pairs l)),
       packets.mkReader (pre ++ l)
         (List.length pre + snd (packets.read_pairs l))).
Proof.
  induction l as [|a|a b l IH] using pair_induction; intros pre acc fuel Hf.
  - destruct fuel as [|fuel]; [cbn in Hf; lia|].
    cbn [packets.ReadString_loop]. unfold bind, ret.
    rewrite !ReadByte_eof by (cbn; rewrite length_app; cbn; lia).
    rewrite eqb_x00. cbn. now rewrite !app_nil_r, Nat.add_0_r.
  - destruct fuel as [|fuel]; [cbn in Hf; lia|].
    cbn [packets.ReadString_loop]. unfold bind, ret.
    rewrite ReadByte_at.
    rewrite !ReadByte_eof by (cbn; rewrite length_app; cbn; lia).
    cbn [packets.read_pairs]. rewrite eqb_x00, andb_true_r.
    destruct (Byte.eqb a x00); cbn [fst snd app]; [now rewrite app_nil_r|].
    destruct fuel as [|fuel]; [cbn in Hf; lia|].
    cbn [packets.ReadString_loop]. unfold bind, ret.
    rewrite !ReadByte_eof by (cbn; rewrite length_app; cbn; lia).
    rewrite eqb_x00. reflexivity.
  - destruct fuel as [|fuel]; [cbn in Hf; lia|].
    cbn [packets.ReadString_loop]. unfold bind, ret.
    rewrite ReadByte_at.
    replace (pre ++ a :: b :: l) with ((pre ++ [a]) ++ b :: l)
      by (now rewrite <- app_assoc).
    replace (List.length pre + 1)%nat with (List.length (pre ++ [a]))
      by (rewrite length_app; reflexivity).
    rewrite ReadByte_at.
    cbn [packets.read_pairs].
    destruct (Byte.eqb a x00 && Byte.eqb b x00).
    + cbn. rewrite app_nil_r, length_app. cbn. f_equal. f_equal. lia.
    + replace ((pre ++ [a]) ++ b :: l) with ((pre ++ [a; b]) ++ l)
        by (now rewrite <- !app_assoc).
      replace (List.length (pre ++ [a]) + 1)%nat
        with (List.length (pre ++ [a; b]))
        by (rewrite !length_app; cbn; lia).
      rewrite IH by (cbn in Hf; lia).
      destruct (packets.read_pairs l) as [v n]. cbn [fst snd].
      rewrite <- app_assoc, length_app. cbn. f_equal. f_equal. lia.
Qed.

(** [ReadString] always reaches its [break]. *)
Lemma ReadString_loop_returns (r : packets.Reader) :
  let unread := skipn (packets.i r) (packets.s r) in
  packets.ReadString r
  = (Some (fst (packets.read_pairs unread)),
     packets.mkReader (packets.s r)
       (packets.i r + snd (packets.read_pairs unread))).
Proof.
  intros unread. unfold packets.ReadString.
  destruct (Nat.le_gt_cases (packets.i r) (List.length (packets.s r))) as [Hle|Hgt].
  - destruct r as [s i]. cbn [packets.s packets.i] in *. subst unread.
    pose proof (ReadString_loop_read_pairs (skipn i s) (firstn i s) []
                  (S (List.length s - i))) as E.
    rewrite firstn_skipn, length_firstn, Nat.min_l in E by lia.
    apply E. rewrite length_skipn. lia.
  - subst unread. rewrite skipn_all2 by lia.
    replace (List.length (packets.s r) - packets.i r)%nat with 0%nat by lia.
    cbn [packets.ReadString_loop packets.read_pairs fst snd].
    unfold bind, ret. rewrite !ReadByte_eof by lia.
    rewrite eqb_x00. cbn. rewrite Nat.add_0_r. destruct r; reflexivity.
Qed.

Lemma read_pairs_consumed (l : list byte) :
  (snd (packets.read_pairs l) <= List.length l)%nat.
Proof.
  induction l as [|a|a b l IH] using pair_induction; cbn.
  - lia.
  - destruct (Byte.eqb a x00); cbn; lia.
  - destruct (Byte.eqb a x00 && Byte.eqb b x00); cbn; [lia|].
    destruct (packets.read_pairs l); cbn in *; lia.
Qed.

Lemma read_pairs_unterminated (l : list byte) :
  packets.has_terminator l = false ->
  snd (packets.read_pairs l) = List.length l
  /\ (Nat.even (List.length l) = true -> fst (packets.read_pairs l) = l)
  /\ (forall (body : list byte) (final : byte),
        l = body ++ [final] ->
        Nat.even (List.length body) = true ->
        (final <> x00 -> fst (packets.read_pairs l) = l ++ [x00])
        /\ (final = x00 -> fst (packets.read_pairs l) = body)).
Proof.
  induction l as [|a|a b l IH] using pair_induction; intros H.
  - split; [reflexivity|]. split; [reflexivity|].
    intros body final E. now destruct body.
  - cbn [packets.read_pairs List.length].
    split; [now destruct (Byte.eqb a x00)|].
    split; [discriminate|].
    intros [|x body] final E Hev.
    + injection E as ->. split; intros Hf.
      * destruct (Byte.eqb final x00) eqn:Ez; [|reflexivity].
        now apply Byte.byte_dec_bl in Ez.
      * subst final. now rewrite eqb_x00.
    + injection E as _ E. now destruct body.
  - cbn [packets.has_terminator] in H. apply orb_false_iff in H.
    destruct H as [Hab Hl]. destruct (IH Hl) as (Hn & Heven & Hodd).
    cbn [packets.read_pairs]. rewrite Hab.
    destruct (packets.read_pairs l) as [v n]. cbn [fst snd] in *.
    split; [cbn [List.length]; lia|].
    split.
    + intros Hev. cbn [List.length Nat.even] in Hev. now rewrite Heven.
    + intros [|x [|y body]] final E Hev.
      * discriminate E.
      * discriminate Hev.
      * cbn [app] in E. injection E as -> -> E.
        cbn [List.length Nat.even] in Hev.
        destruct (Hodd body final E Hev) as [Hnz Hz].
        split; intros Hf.
        -- cbn [app]. now rewrite (Hnz Hf).
        -- now rewrite (Hz Hf).
Qed.

(** C7 (amended): on every finite buffer [ReadString] terminates, having
    consumed no more than the unread bytes, and returns a string.  When the
    unread bytes hold no zero pair it does not fail either: it consumes all
    of them and returns the bytes read as its value.  For an even number of
    unread bytes the value is these bytes; for an odd number, the last byte
    being unpaired, the value is the unread bytes followed by a zero byte
    when that last byte is not zero, and the unread bytes without it when it
    is zero. *)
Theorem ReadString_terminates_with_a_value (r : packets.Reader) :
  let unread := skipn (packets.i r) (packets.s r) in
  exists (value : list byte) (consumed : nat),
    packets.ReadString r
      = (Some value, packets.mkReader (packets.s r) (packets.i r + consumed))
    /\ (consumed <= List.length unread)%nat
    /\ (packets.has_terminator unread = false ->
        consumed = List.length unread
        /\ (Nat.even (List.length unread) = true -> value = unread)
        /\ (forall (body : list byte) (final : byte),
              unread = body ++ [final] ->
              Nat.even (List.length body) = true ->
              (final <> x00 -> value = unread ++ [x00])
              /\ (final = x00 -> value = body))).
Proof.
  intros unread.
  exists (fst (packets.read_pairs unread)), (snd (packets.read_pairs unread)).
  split; [apply ReadString_loop_returns|].
  split; [apply read_pairs_consumed|].
  apply read_pairs_unterminated.
Qed.

(** Three buffers without a zero pair, each consumed whole: [[0x41; 0x00;
    0x42; 0x00]] comes back as it is, [[0x41; 0x00; 0x42]] comes back with a
    zero byte after its unpaired last byte, and [[0x41; 0x00; 0x00]] comes
    back without its unpaired last zero. *)
Lemma ReadString_terminates_with_a_value_witness :
  packets.ReadString (packets.NewReader [x41; x00; x42; x00])
  = (Some [x41; x00; x42; x00], packets.mkReader [x41; x00; x42; x00] 4)
  /\ packets.ReadString (packets.NewReader [x41; x00; x42])
     = (Some [x41; x00; x42; x00], packets.mkReader [x41; x00; x42] 3)
  /\ packets.ReadString (packets.NewReader [x41; x00; x00])
     = (Some [x41; x00], packets.mkReader [x41; x00; x00] 3).
Proof.
  split; [|split].
  - destruct (ReadString_terminates_with_a_value
                (packets.NewReader [x41; x00; x42; x00]))
      as (value & consumed & E & _ & Hun).
    destruct (Hun eq_refl) as (Hc & Heven & _).
    rewrite E, Hc, (Heven eq_refl). reflexivity.
  - destruct (ReadString_terminates_with_a_value
                (packets.NewReader [x41; x00; x42]))
      as (value & consumed & E & _ & Hun).
    destruct (Hun eq_refl) as (Hc & _ & Hodd).
    destruct (Hodd [x41; x00] x42 eq_refl eq_refl) as [Hnz _].
    rewrite E, Hc, Hnz by discriminate. reflexivity.
  - destruct (ReadString_terminates_with_a_value
                (packets.NewReader [x41; x00; x00]))
      as (value & consumed & E & _ & Hun).
    destruct (Hun eq_refl) as (Hc & _ & Hodd).
    destruct (Hodd [x41; x00] x00 eq_refl eq_refl) as [_ Hz].
    rewrite E, Hc, (Hz eq_refl). reflexivity.
Defined.

(** C7 as stated fails: the buffer [[0x41; 0x00]] holds no zero pair, and
    [ReadString] returns the string of these two bytes instead of
    failing. *)
Lemma ReadString_unterminated_returns_a_value :
  packets.has_terminator [x41; x00] = false
  /\ packets.ReadString (packets.NewReader [x41; x00])
     = (Some [x41; x00], packets.mkReader [x41; x00] 2).
Proof.
  split; reflexivity.
Qed.

(** What [WriteString] appends: the code units of the runes, two bytes each,
    and the zero unit. *)
Lemma WriteString_range_bytes (rs : list Z) :
  forall b : packets.Buffer,
    packets.WriteString_range rs b
    = (None, b ++ flat_map (fun r => le_bytes 2 (uint16 r)) rs).
Proof.
  induction rs as [|r rs IH]; intros b.
  - cbn. now rewrite app_nil_r.
  - cbn [packets.WriteString_range flat_map].
    unfold bind, packets.WriteUInt16, packets.binary_Write, packets.Write.
    rewrite IH. now rewrite <- app_assoc.
Qed.

Lemma WriteString_bytes (value : list byte) (b : packets.Buffer) :
  packets.WriteString value b
  = (None,
     b ++ flat_map (fun r => le_bytes 2 (uint16 r)) (packets.runes value)
       ++ [x00; x00]).
Proof.
  unfold packets.WriteString, bind.
  rewrite WriteString_range_bytes.
  unfold packets.WriteUInt16, packets.binary_Write, packets.Write.
  now rewrite <- app_assoc.
Qed.

Lemma read_pairs_code_units (units : list Z) (rest : list byte) :
  Forall (fun u => uint16 u <> 0) units ->
  fst (packets.read_pairs
         (flat_map (fun u => le_bytes 2 (uint16 u)) units
            ++ x00 :: x00 :: rest))
  = flat_map (fun u => le_bytes 2 (uint16 u)) units.
Proof.
  induction 1 as [|u units Hu _ IH]; [reflexivity|].
  cbn [flat_map le_bytes app packets.read_pairs].
  destruct (Byte.eqb (byte_of_Z (uint16 u)) x00
            && Byte.eqb (byte_of_Z (Z.shiftr (uint16 u) 8)) x00) eqn:E.
  - exfalso. apply Hu. apply andb_true_iff in E. destruct E as [Ea Eb].
    apply Byte.byte_dec_bl in Ea, Eb.
    pose proof (le_value_le_bytes 2 (uint16 u)) as Hv.
    cbn [le_bytes] in Hv. rewrite Ea, Eb in Hv.
    unfold uint16 in *. rewrite Z.mod_mod in Hv by lia.
    change (8 * Z.of_nat 2) with 16 in Hv. rewrite <- Hv. reflexivity.
  - cbn [flat_map le_bytes app] in IH.
    destruct (packets.read_pairs _) as [v n]. cbn [fst] in *.
    now rewrite IH.
Qed.

(** What [ReadString] makes of a written string without a zero code unit:
    the bytes of the code units, not the string. *)
Lemma ReadString_WriteString_code_units (value : list byte) :
  Forall (fun r => uint16 r <> 0) (packets.runes value) ->
  fst (packets.ReadString
         (packets.NewReader (snd (packets.WriteString value packets.NewBuffer))))
  = Some (flat_map (fun r => le_bytes 2 (uint16 r)) (packets.runes value)).
Proof.
  intros H. rewrite WriteString_bytes, ReadString_loop_returns.
  cbn [snd fst packets.NewReader packets.s packets.i skipn packets.NewBuffer app].
  now rewrite read_pairs_code_units.
Qed.

(** C6 at the string "A": [WriteString] writes the code unit 0x0041 and the
    terminator, and [ReadString] returns the two bytes of the code unit,
    "A\x00", not "A". *)
Theorem WriteString_ReadString_A :
  let value := [x41] in
  let written := snd (packets.WriteString value packets.NewBuffer) in
  written = [x41; x00; x00; x00]
  /\ fst (packets.ReadString (packets.NewReader written)) = Some [x41; x00]
  /\ fst (packets.ReadString (packets.NewReader written)) <> Some value.
Proof.
  cbv zeta. repeat split; try reflexivity. vm_compute. discriminate.
Qed.

(** ** The login-channel block cipher *)

Lemma copy_same_length {A : Type} (dst src : list A) :
  List.length dst = List.length src -> fst (copy dst src) = src.
Proof.
  intros H. unfold copy. cbn [fst].
  rewrite (skipn_all2 dst) by lia.
  rewrite H, firstn_all, app_nil_r. reflexivity.
Qed.

Section BlocksLoop.

Variable f : list byte -> list byte.
Variable blockSize : nat.
Hypothesis blockSize_pos : (0 < blockSize)%nat.
Hypothesis f_length : forall b, List.length b = blockSize ->
                                List.length (f b) = blockSize.

Lemma blocks_loop_map_blocks (k : nat) :
  forall (fuel : nat) (pre_d pre_s dst src : list byte),
    List.length pre_d = List.length pre_s ->
    List.length src = (k * blockSize)%nat ->
    List.length dst = (k * blockSize)%nat ->
    (k <= fuel)%nat ->
    protocol.blocks_loop fuel f blockSize (List.length pre_s)
      (pre_d ++ dst) (pre_s ++ src)
    = pre_d ++ protocol.map_blocks k f blockSize src.
Proof.
  induction k as [|k IH]; intros fuel pre_d pre_s dst src Hpre Hs Hd Hfuel.
  - destruct src; [|discriminate]. destruct dst; [|discriminate].
    cbn [protocol.map_blocks].
    destruct fuel; cbn [protocol.blocks_loop]; [reflexivity|].
    rewrite app_nil_r.
    destruct (Nat.ltb_spec (List.length pre_s) (List.length pre_s));
      [lia | reflexivity].
  - destruct fuel as [|fuel]; [lia|].
    cbn [protocol.blocks_loop protocol.map_blocks].
    assert (Hlen : (blockSize <= List.length src)%nat) by (rewrite Hs; cbn; lia).
    destruct (Nat.ltb_spec (List.length pre_s) (List.length (pre_s ++ src)))
      as [_|Hge]; [|rewrite length_app in Hge; lia].
    assert (Eslice : protocol.slice (pre_s ++ src) (List.length pre_s)
                       (List.length pre_s + blockSize) = firstn blockSize src).
    { unfold protocol.slice. rewrite skipn_app, skipn_all, Nat.sub_diag.
      cbn [skipn app]. f_equal. lia. }
    rewrite Eslice.
    set (blk := firstn blockSize src).
    assert (Hblk : List.length blk = blockSize)
      by (subst blk; rewrite length_firstn; lia).
    assert (Ewrite : protocol.write_slice (pre_d ++ dst) (List.length pre_s)
                       (List.length pre_s + blockSize) (f blk)
                     = (pre_d ++ f blk) ++ skipn blockSize dst).
    { unfold protocol.write_slice, protocol.slice. rewrite <- Hpre.
      rewrite firstn_app, firstn_all, Nat.sub_diag. cbn [firstn].
      rewrite app_nil_r.
      rewrite !skipn_app, skipn_all, Nat.sub_diag. cbn [skipn app].
      rewrite (skipn_all2 pre_d) by lia. cbn [app].
      replace (List.length pre_d + blockSize - List.length pre_d)%nat
        with blockSize by lia.
      rewrite copy_same_length
        by (rewrite length_firstn, f_length by exact Hblk; lia).
      now rewrite <- app_assoc. }
    rewrite Ewrite.
    rewrite <- (firstn_skipn blockSize src) at 1. fold blk.
    rewrite app_assoc.
    replace (List.length pre_s + blockSize)%nat
      with (List.length (pre_s ++ blk)) by (rewrite length_app; lia).
    rewrite IH.
    + now rewrite <- app_assoc.
    + rewrite !length_app, f_length by exact Hblk. lia.
    + rewrite length_skipn, Hs. cbn. lia.
    + rewrite length_skipn, Hd. cbn. lia.
    + lia.
Qed.

Lemma length_map_blocks (k : nat) :
  forall src, List.length src = (k * blockSize)%nat ->
              List.length (protocol.map_blocks k f blockSize src)
              = (k * blockSize)%nat.
Proof.
  induction k as [|k IH]; intros src Hs; [reflexivity|].
  cbn [protocol.map_blocks]. rewrite length_app.
  rewrite f_length by (rewrite length_firstn, Hs; cbn; lia).
  rewrite IH by (rewrite length_skipn, Hs; cbn; lia).
  reflexivity.
Qed.

(** The loop started at index 0 on [k] whole blocks. *)
Lemma blocks_loop_from_0 (k : nat) (src : list byte) :
  List.length src = (k * blockSize)%nat ->
  protocol.blocks_loop (List.length src) f blockSize 0
    (make x00 (List.length src)) src
  = protocol.map_blocks k f blockSize src.
Proof.
  intros Hs.
  apply (blocks_loop_map_blocks k (List.length src) [] []
           (make x00 (List.length src)) src).
  - reflexivity.
  - exact Hs.
  - now rewrite length_make.
  - rewrite Hs. nia.
Qed.

End BlocksLoop.

Lemma firstn_app_exact {A : Type} (l1 l2 : list A) (n : nat) :
  List.length l1 = n -> firstn n (l1 ++ l2) = l1.
Proof.
  intros <-. rewrite firstn_app, firstn_all, Nat.sub_diag. cbn.
  apply app_nil_r.
Qed.

Lemma skipn_app_exact {A : Type} (l1 l2 : list A) (n : nat) :
  List.length l1 = n -> skipn n (l1 ++ l2) = l2.
Proof.
  intros <-. rewrite skipn_app, skipn_all, Nat.sub_diag. reflexivity.
Qed.

Lemma map_blocks_inverse (c : protocol.Block) (k : nat) :
  protocol.BlockLaws c ->
  forall src, List.length src = (k * protocol.BlockSize c)%nat ->
    protocol.map_blocks k (protocol.Decrypt c) (protocol.BlockSize c)
      (protocol.map_blocks k (protocol.Encrypt c) (protocol.BlockSize c) src)
    = src.
Proof.
  intros [Hpos Hlen _ Hinv]. induction k as [|k IH]; intros src Hs.
  - destruct src; [reflexivity | discriminate].
  - cbn [protocol.map_blocks].
    set (blk := firstn (protocol.BlockSize c) src).
    assert (Hblk : List.length blk = protocol.BlockSize c)
      by (subst blk; rewrite length_firstn, Hs; cbn; lia).
    rewrite firstn_app_exact, skipn_app_exact by (now apply Hlen).
    rewrite Hinv by exact Hblk.
    rewrite IH by (rewrite length_skipn, Hs; cbn; lia).
    apply firstn_skipn.
Qed.

Lemma skipn_repeat_sub {A : Type} (x : A) (m n : nat) :
  skipn m (repeat x n) = repeat x (n - m).
Proof.
  revert n. induction m as [|m IH]; intros n.
  - cbn. now rewrite Nat.sub_0_r.
  - destruct n; [reflexivity|]. cbn. apply IH.
Qed.

(** The padded buffer of [EncryptBlowfish]: the data, then zero bytes up to
    the next multiple of the block size. *)
Lemma padded_bytes (data : list byte) (blockSize : nat) :
  (0 < blockSize)%nat ->
  let k := ((List.length data + blockSize - 1) / blockSize)%nat in
  let pad := (k * blockSize - List.length data)%nat in
  fst (copy (make x00 (k * blockSize)) data) = data ++ repeat x00 pad
  /\ (List.length data + pad = k * blockSize)%nat
  /\ (pad < blockSize)%nat.
Proof.
  intros Hpos k pad.
  pose proof (Nat.div_mod_eq (List.length data + blockSize - 1) blockSize) as E.
  pose proof (Nat.mod_upper_bound
                (List.length data + blockSize - 1) blockSize ltac:(lia)) as B.
  fold k in E.
  assert (Hk : (List.length data <= k * blockSize)%nat) by lia.
  split; [|subst pad; lia].
  unfold copy, make. cbn [fst]. rewrite repeat_length.
  rewrite firstn_all2 by lia. f_equal. apply skipn_repeat_sub.
Qed.

Lemma EncryptBlowfish_returns (c : protocol.Block) (ce : protocol.CryptoEngine)
  (m : list byte) :
  protocol.blowfishCipher ce = Some c ->
  protocol.BlockLaws c ->
  let bs := protocol.BlockSize c in
  let k := ((List.length m + bs - 1) / bs)%nat in
  protocol.EncryptBlowfish m ce
  = protocol.Returns
      (protocol.map_blocks k (protocol.Encrypt c) bs
         (m ++ repeat x00 (k * bs - List.length m))).
Proof.
  intros Hc [Hpos Hlen _ _] bs k.
  destruct (padded_bytes m bs Hpos) as (Hpad & Hsum & _). fold k in Hpad, Hsum.
  unfold protocol.EncryptBlowfish. rewrite Hc. fold bs.
  destruct (Nat.eqb_spec bs 0) as [|_]; [lia|].
  fold k. rewrite Hpad.
  rewrite (blocks_loop_from_0 _ bs Hpos Hlen k); [reflexivity|].
  rewrite length_app, repeat_length. exact Hsum.
Qed.

Lemma DecryptBlowfish_returns (c : protocol.Block) (ce : protocol.CryptoEngine)
  (data : list byte) (k : nat) :
  protocol.blowfishCipher ce = Some c ->
  protocol.BlockLaws c ->
  List.length data = (k * protocol.BlockSize c)%nat ->
  protocol.DecryptBlowfish data ce
  = protocol.Returns
      (protocol.map_blocks k (protocol.Decrypt c) (protocol.BlockSize c) data).
Proof.
  intros Hc [Hpos _ Hdlen _] Hd.
  unfold protocol.DecryptBlowfish. rewrite Hc.
  destruct (Nat.eqb_spec (protocol.BlockSize c) 0) as [|_]; [lia|].
  rewrite Hd at 1. rewrite Nat.Div0.mod_mul. cbn [Nat.eqb negb].
  now rewrite (blocks_loop_from_0 _ _ Hpos Hdlen k).
Qed.

(** C4: with a cipher that initialized successfully, [DecryptBlowfish] of
    [EncryptBlowfish m] returns [m] followed by [pad] zero bytes, where
    [pad] is the least number that makes the length a multiple of the block
    size; so it returns [m] itself when the length of [m] already is one. *)
Theorem Blowfish_round_trip
  (blowfish_NewCipher : list byte -> option protocol.Block)
  (key : list byte) (c : protocol.Block) (m : list byte)
  (ce0 : protocol.CryptoEngine) :
  blowfish_NewCipher key = Some c ->
  protocol.BlockLaws c ->
  let '(err, ce) := protocol.InitializeBlowfish blowfish_NewCipher key ce0 in
  err = None
  /\ exists (encrypted : list byte) (pad : nat),
      protocol.EncryptBlowfish m ce = protocol.Returns encrypted
      /\ protocol.DecryptBlowfish encrypted ce
         = protocol.Returns (m ++ repeat x00 pad)
      /\ (pad < protocol.BlockSize c)%nat
      /\ ((List.length m + pad) mod protocol.BlockSize c = 0)%nat
      /\ ((List.length m mod protocol.BlockSize c = 0)%nat ->
          protocol.DecryptBlowfish encrypted ce = protocol.Returns m).
Proof.
  intros Hnew Hlaws. unfold protocol.InitializeBlowfish. rewrite Hnew.
  split; [reflexivity|].
  set (ce := protocol.mkCryptoEngine (Some c) (protocol.xorCipher ce0)).
  assert (Hc : protocol.blowfishCipher ce = Some c) by reflexivity.
  pose proof Hlaws as [Hpos Hlen Hdlen Hinv].
  set (bs := protocol.BlockSize c) in *.
  destruct (padded_bytes m bs Hpos) as (_ & Hsum & Hlt).
  set (k := ((List.length m + bs - 1) / bs)%nat) in *.
  set (pad := (k * bs - List.length m)%nat) in *.
  assert (Hpl : List.length (m ++ repeat x00 pad) = (k * bs)%nat)
    by (rewrite length_app, repeat_length; exact Hsum).
  assert (Hdec : protocol.DecryptBlowfish
                   (protocol.map_blocks k (protocol.Encrypt c) bs
                      (m ++ repeat x00 pad)) ce
                 = protocol.Returns (m ++ repeat x00 pad)).
  { rewrite (DecryptBlowfish_returns c ce _ k Hc Hlaws)
      by (apply length_map_blocks; assumption).
    subst bs. now rewrite map_blocks_inverse. }
  exists (protocol.map_blocks k (protocol.Encrypt c) bs (m ++ repeat x00 pad)),
    pad.
  split; [exact (EncryptBlowfish_returns c ce m Hc Hlaws)|].
  split; [exact Hdec|]. split; [exact Hlt|].
  assert (Hp : ((List.length m + pad) mod bs = 0)%nat)
    by (rewrite Hsum; apply Nat.Div0.mod_mul).
  split; [exact Hp|].
  intros Hm. rewrite Hdec. replace pad with 0%nat; [now rewrite app_nil_r|].
  rewrite Nat.Div0.add_mod, Hm, Nat.add_0_l, Nat.Div0.mod_mod in Hp.
  rewrite Nat.mod_small in Hp by exact Hlt. now symmetry.
Qed.

(** The sample block cipher is lawful. *)

Lemma byte_high_bits (b : byte) (n : Z) :
  8 <= n -> Z.testbit (Z_of_byte b) n = false.
Proof.
  intros Hn. rewrite <- (Z.mod_small (Z_of_byte b) (2 ^ 8))
    by apply Z_of_byte_range.
  apply Z.mod_pow2_bits_high. lia.
Qed.

Lemma Z_of_byte_bxor (a b : byte) :
  Z_of_byte (samples.bxor a b) = Z.lxor (Z_of_byte a) (Z_of_byte b).
Proof.
  unfold samples.bxor. rewrite Z_of_byte_of_Z. change 256 with (2 ^ 8).
  apply Z.bits_inj'. intros n Hn.
  destruct (Z.ltb_spec n 8).
  - now rewrite Z.mod_pow2_bits_low.
  - rewrite Z.mod_pow2_bits_high, Z.lxor_spec by lia.
    now rewrite !byte_high_bits.
Qed.

Lemma bxor_involutive (k a : byte) : samples.bxor k (samples.bxor k a) = a.
Proof.
  apply Z_of_byte_inj. rewrite !Z_of_byte_bxor.
  now rewrite <- Z.lxor_assoc, Z.lxor_nilpotent, Z.lxor_0_l.
Qed.

Lemma bxor_unmask (b k t : byte) :
  samples.bxor (samples.bxor (samples.bxor (samples.bxor b k) t) k) t = b.
Proof.
  apply Z_of_byte_inj. rewrite !Z_of_byte_bxor.
  apply Z.bits_inj'. intros n _. rewrite !Z.lxor_spec.
  destruct (Z.testbit (Z_of_byte b) n), (Z.testbit (Z_of_byte k) n),
    (Z.testbit (Z_of_byte t) n); reflexivity.
Qed.

Lemma mask_block_laws (k : byte) : protocol.BlockLaws (samples.mask_block k).
Proof.
  constructor; cbn.
  - lia.
  - intros b Hb. now rewrite length_map, length_rev.
  - intros b Hb. now rewrite length_rev, length_map.
  - intros b _. rewrite map_map.
    rewrite (map_ext _ (fun a => a)) by (intros; apply bxor_involutive).
    rewrite map_id. apply rev_involutive.
Qed.

(** With the sample cipher keyed by [[0x5a]], the three bytes [[1; 2; 3]]
    come back followed by five zero bytes. *)
Lemma Blowfish_round_trip_witness :
  let '(err, ce) :=
    protocol.InitializeBlowfish samples.mask_NewCipher [x5a]
      protocol.NewCryptoEngine in
  err = None
  /\ exists (encrypted : list byte) (pad : nat),
      protocol.EncryptBlowfish [x01; x02; x03] ce = protocol.Returns encrypted
      /\ protocol.DecryptBlowfish encrypted ce
         = protocol.Returns ([x01; x02; x03] ++ repeat x00 pad)
      /\ (pad < 8)%nat
      /\ ((3 + pad) mod 8 = 0)%nat
      /\ ((3 mod 8 = 0)%nat ->
          protocol.DecryptBlowfish encrypted ce
          = protocol.Returns [x01; x02; x03]).
Proof.
  exact (Blowfish_round_trip samples.mask_NewCipher [x5a]
           (samples.mask_block x5a) [x01; x02; x03] protocol.NewCryptoEngine
           eq_refl (mask_block_laws x5a)).
Defined.

(** ** The world-channel cipher *)

Lemma rolling_decrypt_encrypt (raw key : list byte) :
  forall (i : nat) (temp : byte),
    samples.rolling_decrypt (samples.rolling_encrypt raw key i temp) key i temp
    = raw.
Proof.
  induction raw as [|b raw IH]; intros i temp; [reflexivity|].
  cbn [samples.rolling_encrypt samples.rolling_decrypt].
  now rewrite bxor_unmask, IH.
Qed.

Lemma rolling_xor_laws : protocol.XorLaws samples.rolling_xor.
Proof.
  constructor; cbn.
  - reflexivity.
  - intros raw key. apply rolling_decrypt_encrypt.
Qed.

Section WorldChannel.

Variable x : protocol.xor_package.
Hypothesis laws : protocol.XorLaws x.

(** After [InitializeXOR] the engine holds equal input and output keys. *)
Lemma InitializeXOR_keys (key : list byte) (ce0 : protocol.CryptoEngine) :
  exists k : list byte,
    snd (protocol.InitializeXOR x key ce0)
    = protocol.mkCryptoEngine (protocol.blowfishCipher ce0)
        (Some (protocol.mkCipher k k)).
Proof.
  unfold protocol.InitializeXOR. cbn [snd].
  destruct laws as [Hkeys _].
  destruct (8 <=? List.length key)%nat.
  - rewrite Hkeys. eexists. reflexivity.
  - destruct (protocol.xor_NewCipher x) as [ik ok]. cbn in Hkeys. subst ok.
    eexists. reflexivity.
Qed.

Lemma copy_make (data : list byte) :
  fst (copy (make x00 (List.length data)) data) = data.
Proof. apply copy_same_length, length_make. Qed.

(** Neither call changes the engine: the key handed to the xor package is a
    copy. *)
Lemma EncryptXOR_engine (ce : protocol.CryptoEngine) (k : list byte)
  (data : list byte) :
  protocol.xorCipher ce = Some (protocol.mkCipher k k) ->
  protocol.EncryptXOR x data ce
  = (protocol.Returns (fst (protocol.xor_Encrypt x data k)), ce).
Proof.
  intros Hc. unfold protocol.EncryptXOR. rewrite Hc.
  cbn [protocol.OutputKey]. rewrite !copy_make.
  now destruct (protocol.xor_Encrypt x data k).
Qed.

Lemma DecryptXOR_engine (ce : protocol.CryptoEngine) (k : list byte)
  (data : list byte) :
  protocol.xorCipher ce = Some (protocol.mkCipher k k) ->
  protocol.DecryptXOR x data ce
  = (protocol.Returns (fst (protocol.xor_Decrypt x data k)), ce).
Proof.
  intros Hc. unfold protocol.DecryptXOR. rewrite Hc.
  cbn [protocol.InputKey]. rewrite !copy_make.
  now destruct (protocol.xor_Decrypt x data k).
Qed.

Lemma EncryptXOR_all_engine (ce : protocol.CryptoEngine) (k : list byte)
  (msgs : list (list byte)) :
  protocol.xorCipher ce = Some (protocol.mkCipher k k) ->
  protocol.EncryptXOR_all x msgs ce
  = (Some (map (fun m => fst (protocol.xor_Encrypt x m k)) msgs), ce).
Proof.
  intros Hc. induction msgs as [|m msgs IH]; [reflexivity|].
  cbn [protocol.EncryptXOR_all map]. unfold bind, ret.
  rewrite (EncryptXOR_engine ce k m Hc), IH. reflexivity.
Qed.

Lemma DecryptXOR_all_engine (ce : protocol.CryptoEngine) (k : list byte)
  (cts : list (list byte)) :
  protocol.xorCipher ce = Some (protocol.mkCipher k k) ->
  protocol.DecryptXOR_all x cts ce
  = (Some (map (fun c => fst (protocol.xor_Decrypt x c k)) cts), ce).
Proof.
  intros Hc. induction cts as [|c cts IH]; [reflexivity|].
  cbn [protocol.DecryptXOR_all map]. unfold bind, ret.
  rewrite (DecryptXOR_engine ce k c Hc), IH. reflexivity.
Qed.

Lemma in_combine_map {A B : Type} (g : A -> B) (l : list A) (a : A) (b : B) :
  In (a, b) (combine l (map g l)) -> b = g a.
Proof.
  induction l as [|y l IH]; cbn; [tauto|].
  intros [E|H]; [now inversion E | now apply IH].
Qed.

(** C5 (amended): on an initialized engine, the messages encrypted in order
    are reproduced by decrypting the ciphertexts in the same order.  No call
    changes the engine's key state, since [EncryptXOR] and [DecryptXOR] work
    on a copy of the key; hence the ciphertexts decrypted in any other order
    [order] reproduce their messages as well. *)
Theorem XOR_round_trip_in_any_order (key : list byte)
  (ce0 : protocol.CryptoEngine) (msgs : list (list byte)) :
  let ce := snd (protocol.InitializeXOR x key ce0) in
  exists cts : list (list byte),
    protocol.EncryptXOR_all x msgs ce = (Some cts, ce)
    /\ protocol.DecryptXOR_all x cts ce = (Some msgs, ce)
    /\ forall order : list (list byte * list byte),
         Permutation order (combine msgs cts) ->
         protocol.DecryptXOR_all x (map snd order) ce
         = (Some (map fst order), ce).
Proof.
  intros ce. destruct (InitializeXOR_keys key ce0) as [k Hk].
  fold ce in Hk.
  assert (Hc : protocol.xorCipher ce = Some (protocol.mkCipher k k))
    by (now rewrite Hk).
  exists (map (fun m => fst (protocol.xor_Encrypt x m k)) msgs).
  destruct laws as [_ Hinv].
  split; [now apply EncryptXOR_all_engine|].
  split.
  - rewrite (DecryptXOR_all_engine ce k _ Hc), map_map.
    rewrite (map_ext _ (fun m => m)) by (intros; apply Hinv).
    now rewrite map_id.
  - intros order Hperm.
    rewrite (DecryptXOR_all_engine ce k _ Hc), map_map.
    do 2 f_equal. apply map_ext_in. intros [m c] Hin. cbn [fst snd].
    apply (Permutation_in _ Hperm), in_combine_map in Hin. subst c.
    apply Hinv.
Qed.

End WorldChannel.

(** With the sample rolling cipher: two messages, their ciphertexts
    decrypted in the opposite order. *)
Lemma XOR_round_trip_in_any_order_witness :
  let msgs := [[x01; x02]; [x03]] in
  let ce := snd (protocol.InitializeXOR samples.rolling_xor
                   [x01; x02; x03; x04; x05; x06; x07; x08]
                   protocol.NewCryptoEngine) in
  exists cts : list (list byte),
    protocol.EncryptXOR_all samples.rolling_xor msgs ce = (Some cts, ce)
    /\ protocol.DecryptXOR_all samples.rolling_xor cts ce = (Some msgs, ce)
    /\ forall order : list (list byte * list byte),
         Permutation order (combine msgs cts) ->
         protocol.DecryptXOR_all samples.rolling_xor (map snd order) ce
         = (Some (map fst order), ce).
Proof.
  exact (XOR_round_trip_in_any_order samples.rolling_xor rolling_xor_laws
           [x01; x02; x03; x04; x05; x06; x07; x08]
           protocol.NewCryptoEngine [[x01; x02]; [x03]]).
Defined.

(** C5 as stated fails.  With the sample rolling cipher, whose
    [xor_Encrypt] does advance the key it is given, the engine after
    encrypting is the engine before, and the two ciphertexts of two distinct
    messages decrypted in the opposite order give the two messages back. *)
Lemma XOR_out_of_order_reproduces :
  let k := [x01; x02; x03; x04; x05; x06; x07; x08] in
  let ce := snd (protocol.InitializeXOR samples.rolling_xor k
                   protocol.NewCryptoEngine) in
  snd (protocol.xor_Encrypt samples.rolling_xor [x01; x02] k) <> k
  /\ protocol.EncryptXOR_all samples.rolling_xor [[x01; x02]; [x03]] ce
     = (Some [[x00; x00]; [x02]], ce)
  /\ protocol.DecryptXOR_all samples.rolling_xor [[x02]; [x00; x00]] ce
     = (Some [[x03]; [x01; x02]], ce).
Proof.
  cbv zeta. split; [|split].
  - vm_compute. discriminate.
  - vm_compute. reflexivity.
  - vm_compute. reflexivity.
Qed.

(** ** The client registry *)

Lemma bytes_Equal_true (a b : list byte) :
  packets.bytes_Equal a b = true <-> a = b.
Proof.
  unfold packets.bytes_Equal.
  destruct (list_eq_dec Byte.byte_eq_dec a b); split; congruence.
Qed.

Lemma bytes_Equal_false (a b : list byte) :
  packets.bytes_Equal a b = false <-> a <> b.
Proof.
  unfold packets.bytes_Equal.
  destruct (list_eq_dec Byte.byte_eq_dec a b); split; congruence.
Qed.

(** Removing the entry at the index where [items] starts. *)
Lemma shift_down_removes (before : list loginserver.Client)
  (item : loginserver.Client) (after : list loginserver.Client) :
  let all := before ++ item :: after in
  let i := List.length before in
  let shifted := firstn i all ++ fst (copy (skipn i all) (skipn (i + 1) all)) in
  firstn (List.length shifted - 1) shifted = before ++ after.
Proof.
  cbv zeta.
  rewrite (firstn_app_exact before (item :: after)) by reflexivity.
  rewrite (skipn_app_exact before (item :: after)) by reflexivity.
  replace (skipn (List.length before + 1) (before ++ item :: after)) with after.
  2:{ replace (before ++ item :: after) with ((before ++ [item]) ++ after)
        by (now rewrite <- app_assoc).
      symmetry. apply skipn_app_exact. rewrite length_app. reflexivity. }
  unfold copy. cbn [fst].
  replace (firstn (List.length (item :: after)) after) with after
    by (symmetry; apply firstn_all2; cbn; lia).
  assert (Hlast : List.length (skipn (List.length after) (item :: after)) = 1%nat)
    by (rewrite length_skipn; cbn [List.length]; lia).
  rewrite app_assoc.
  rewrite length_app, Hlast, Nat.add_sub.
  now apply firstn_app_exact.
Qed.

Lemma kickClient_range_spec (sessionID : list byte)
  (items : list loginserver.Client) :
  forall before : list loginserver.Client,
    (forall it, In it items -> loginserver.SessionID it <> sessionID) /\
      loginserver.kickClient_range (before ++ items) (List.length before)
        items sessionID = before ++ items
    \/ exists mid item after,
        items = mid ++ item :: after
        /\ loginserver.SessionID item = sessionID
        /\ (forall it, In it mid -> loginserver.SessionID it <> sessionID)
        /\ loginserver.kickClient_range (before ++ items) (List.length before)
             items sessionID = before ++ mid ++ after.
Proof.
  induction items as [|item rest IH]; intros before.
  - left. split; [intros it []|reflexivity].
  - cbn [loginserver.kickClient_range].
    destruct (packets.bytes_Equal (loginserver.SessionID item) sessionID) eqn:E.
    + right. exists [], item, rest. apply bytes_Equal_true in E.
      split; [reflexivity|]. split; [exact E|]. split; [intros it []|].
      apply shift_down_removes.
    + apply bytes_Equal_false in E.
      replace (before ++ item :: rest) with ((before ++ [item]) ++ rest)
        by (now rewrite <- app_assoc).
      replace (List.length before + 1)%nat with (List.length (before ++ [item]))
        by (rewrite length_app; reflexivity).
      destruct (IH (before ++ [item])) as [[Hno Hr]|(mid & it & after & -> & Hs & Hmid & Hr)].
      * left. split; [|exact Hr].
        intros it [<-|Hin]; auto.
      * right. exists (item :: mid), it, after.
        repeat split; auto.
        -- intros it' [<-|Hin]; auto.
        -- rewrite Hr. now rewrite <- app_assoc.
Qed.

(** C8: evicting a client that has a transport closes that transport and
    leaves the configuration and the counters alone.  When an entry with
    its session identifier is registered, exactly one entry, the first with
    that identifier, is removed; when none is, the registry is unchanged.
    Either way [kickClient] returns. *)
Theorem kickClient_evicts (c : loginserver.Client) (conn : loginserver.Conn)
  (l : loginserver.LoginServer) (tr : list loginserver.event) :
  loginserver.Socket c = Some conn ->
  exists l' : loginserver.LoginServer,
    loginserver.kickClient c l tr
      = Some (l', tr ++ [loginserver.Close (Some conn)])
    /\ loginserver.config l' = loginserver.config l
    /\ loginserver.status l' = loginserver.status l
    /\ ((exists item, In item (loginserver.clients l)
                      /\ loginserver.SessionID item = loginserver.SessionID c) ->
        exists before item after,
          loginserver.clients l = before ++ item :: after
          /\ loginserver.SessionID item = loginserver.SessionID c
          /\ (forall it, In it before ->
                         loginserver.SessionID it <> loginserver.SessionID c)
          /\ loginserver.clients l' = before ++ after
          /\ (List.length (loginserver.clients l') + 1
              = List.length (loginserver.clients l))%nat)
    /\ ((forall item, In item (loginserver.clients l) ->
                      loginserver.SessionID item <> loginserver.SessionID c) ->
        loginserver.clients l' = loginserver.clients l).
Proof.
  intros Hsock. unfold loginserver.kickClient. rewrite Hsock.
  eexists. split; [reflexivity|]. cbn [loginserver.config loginserver.status
                                        loginserver.clients].
  split; [reflexivity|]. split; [reflexivity|].
  destruct (kickClient_range_spec (loginserver.SessionID c)
              (loginserver.clients l) [])
    as [[Hno Hr]|(mid & it & after & Hs & Hid & Hmid & Hr)];
    cbn [app List.length] in Hr.
  - split.
    + intros (item & Hin & Hid). exfalso. exact (Hno item Hin Hid).
    + intros _. exact Hr.
  - split.
    + intros _. exists mid, it, after. rewrite Hr.
      repeat split; auto.
      rewrite Hs, !length_app. cbn. lia.
    + intros Hno. exfalso. apply (Hno it); [|exact Hid].
      rewrite Hs. apply in_or_app. right. now left.
Qed.

(** Evicting the sample client from a registry of three clients, the second
    of which it is. *)
Lemma kickClient_evicts_witness :
  let other1 := loginserver.mkClient (Some 1%nat) [x01] (loginserver.mkAccount 0 [] [] 0) in
  let other2 := loginserver.mkClient (Some 2%nat) [x02] (loginserver.mkAccount 0 [] [] 0) in
  let l := loginserver.mkLoginServer [other1; samples.sample_client; other2]
             (loginserver.mkConfig true []) samples.zero_status in
  exists l' : loginserver.LoginServer,
    loginserver.kickClient samples.sample_client l []
      = Some (l', [loginserver.Close (Some 7%nat)])
    /\ loginserver.clients l' = [other1; other2].
Proof.
  cbv zeta.
  destruct (kickClient_evicts samples.sample_client 7%nat
              (loginserver.mkLoginServer
                 [loginserver.mkClient (Some 1%nat) [x01] (loginserver.mkAccount 0 [] [] 0);
                  samples.sample_client;
                  loginserver.mkClient (Some 2%nat) [x02] (loginserver.mkAccount 0 [] [] 0)]
                 (loginserver.mkConfig true []) samples.zero_status)
              [] eq_refl)
    as (l' & Hk & _ & _ & _ & _).
  exists l'. split; [exact Hk|].
  cbn in Hk. injection Hk as <-. reflexivity.
Defined.

(** ** The authentication state machine *)

Section HandlerProperties.

Variable ACCESS_LEVEL_PLAYER : Z.
Variable ServerID_type : loginserver.int_type.
Variable NewRequestAuthLogin : list byte -> loginserver.RequestAuthLogin.
Variable NewRequestPlay : list byte -> loginserver.RequestPlay.
Variable NewRequestServerList : list byte -> loginserver.RequestServerList.

Lemma stepped_refl (a : Z) : loginserver.stepped a a.
Proof. now left. Qed.

Lemma stepped_incr (a : Z) : loginserver.stepped a (uint32 (a + 1)).
Proof. now right. Qed.

Lemma status_stepped_refl (st : loginserver.loginServerStatus) :
  loginserver.status_stepped st st.
Proof.
  unfold loginserver.status_stepped.
  apply Forall_forall. intros counter _. apply stepped_refl.
Qed.

Lemma send_status (buffer : loginserver.packet) (h : loginserver.handling) :
  loginserver.status (loginserver.server (loginserver.send buffer h))
  = loginserver.status (loginserver.server h).
Proof. reflexivity. Qed.

Create HintDb counters.
#[local] Hint Resolve stepped_refl stepped_incr status_stepped_refl : counters.

Ltac counters_step :=
  cbn [loginserver.send loginserver.set_status loginserver.set_account
       loginserver.server loginserver.status loginserver.client
       loginserver.incr_successfulAccountCreation
       loginserver.incr_failedAccountCreation
       loginserver.incr_successfulLogins loginserver.incr_failedLogins
       loginserver.incr_hackAttempts];
  unfold loginserver.status_stepped, loginserver.counters;
  repeat (apply Forall_cons;
          [cbn [loginserver.successfulAccountCreation
                loginserver.failedAccountCreation loginserver.successfulLogins
                loginserver.failedLogins loginserver.hackAttempts];
           auto with counters|]);
  apply Forall_nil.

Lemma handle_packet_status_stepped (ext : loginserver.externals) (opcode : Z)
  (data : list byte) (h h' : loginserver.handling) :
  loginserver.handle_packet ACCESS_LEVEL_PLAYER ServerID_type
      NewRequestAuthLogin NewRequestPlay NewRequestServerList ext opcode data h = Some h' ->
  loginserver.status_stepped (loginserver.status (loginserver.server h))
                 (loginserver.status (loginserver.server h')).
Proof.
  unfold loginserver.handle_packet.
  destruct (opcode =? 0); [|destruct (opcode =? 2); [|destruct (opcode =? 5)]].
  - unfold loginserver.handle_RequestAuthLogin.
    destruct (loginserver.QueryRow ext _) as [| |a].
    + destruct (loginserver.AutoCreate _).
      * destruct (loginserver.GenerateFromPassword ext _) as [hashed|].
        -- destruct (loginserver.Exec_insert ext _ _ _);
             intros [= <-]; counters_step.
        -- intros [= <-]; counters_step.
      * intros [= <-]; counters_step.
    + intros [= <-]; counters_step.
    + cbn [loginserver.set_account loginserver.client loginserver.account].
      destruct (negb _).
      * intros [= <-]; counters_step.
      * destruct (_ >=? _); intros [= <-]; counters_step.
  - unfold loginserver.handle_RequestPlay.
    destruct (loginserver.play_condition _ _ _ _) as [[|]|]; [| |discriminate].
    + destruct (loginserver.prefix _ _); [|discriminate].
      destruct (negb _); intros [= <-]; counters_step.
    + intros [= <-]; counters_step.
  - unfold loginserver.handle_RequestServerList.
    destruct (loginserver.prefix _ _); [|discriminate].
    destruct (negb _).
    + intros [= <-]; counters_step.
    + destruct (loginserver.Socket _); [|discriminate].
      intros [= <-]; counters_step.
  - intros [= <-]; counters_step.
Qed.

(** C9 (amended): handling a packet, whatever the opcode and the branch
    taken, leaves each of the five counters as it was or incremented by one
    as a uint32.  So a counter below the largest uint32, 4294967295, does not
    decrease. *)
Theorem counters_never_decrease_below_max (ext : loginserver.externals)
  (opcode : Z) (data : list byte) (h h' : loginserver.handling) :
  loginserver.handle_packet ACCESS_LEVEL_PLAYER ServerID_type
      NewRequestAuthLogin NewRequestPlay NewRequestServerList ext opcode data h = Some h' ->
  Forall (fun counter =>
            let old := counter (loginserver.status (loginserver.server h)) in
            let new := counter (loginserver.status (loginserver.server h')) in
            (new = old \/ new = uint32 (old + 1))
            /\ (0 <= old < 4294967295 -> old <= new))
    loginserver.counters.
Proof.
  intros H. apply handle_packet_status_stepped in H.
  unfold loginserver.status_stepped in H. revert H. apply Forall_impl.
  intros counter [E|E]; (split; [auto|]); intros Hr; rewrite E; [lia|].
  unfold uint32. rewrite Z.mod_small; lia.
Qed.

Lemma wrap_minus_1 (t : loginserver.int_type) :
  loginserver.wrap t (0 - 1) = -1 \/ 255 <= loginserver.wrap t (0 - 1).
Proof.
  destruct t; vm_compute; first [left; reflexivity | right; discriminate].
Qed.

Lemma index_out_of_range {A : Type} (a : list A) (idx : Z) :
  idx < 0 \/ Z.of_nat (List.length a) <= idx -> loginserver.index a idx = None.
Proof.
  intros H. unfold loginserver.index.
  destruct (Z.leb_spec 0 idx); [|reflexivity].
  destruct (Z.ltb_spec idx (Z.of_nat (List.length a))); [lia|reflexivity].
Qed.

Lemma wrap_small (t : loginserver.int_type) (z : Z) :
  0 <= z <= 127 -> loginserver.wrap t z = z.
Proof.
  intros Hz.
  destruct t; unfold loginserver.wrap, loginserver.signed, loginserver.bits;
    cbv beta iota;
    match goal with
    | |- context [?a mod ?m] =>
        let m' := eval vm_compute in m in change m with m'
    end;
    repeat match goal with
           | |- context [2 ^ ?e] =>
               let v := eval vm_compute in (2 ^ e) in change (2 ^ e) with v
           end;
    rewrite Z.mod_small; lia.
Qed.

(** The condition of the play request in the words of the protocol: for a
    target id between 1 and the number of realms (at most 127, so that it
    fits every integer type), the request is valid exactly when the realm is
    not a testing realm or the access level exceeds the player baseline; for
    an id above the number of realms it is invalid. *)
Lemma play_condition_in_range (requestPlay : loginserver.RequestPlay)
  (h : loginserver.handling) (gs : loginserver.GameServer) :
  let id := loginserver.rp_ServerID requestPlay in
  let servers :=
    loginserver.GameServers (loginserver.config (loginserver.server h)) in
  1 <= id <= 127 ->
  nth_error servers (Z.to_nat (id - 1)) = Some gs ->
  loginserver.play_condition ACCESS_LEVEL_PLAYER ServerID_type requestPlay h
  = Some (negb (loginserver.Options_Testing gs)
          || (loginserver.AccessLevel
                (loginserver.account (loginserver.client h))
              >? ACCESS_LEVEL_PLAYER)).
Proof.
  intros id servers Hid Hnth. unfold loginserver.play_condition.
  fold id servers.
  assert (Hlt : (Z.to_nat (id - 1) < List.length servers)%nat)
    by (apply nth_error_Some; congruence).
  rewrite (wrap_small loginserver.Tint64 id) by lia.
  rewrite (wrap_small ServerID_type (id - 1)) by lia.
  destruct (Z.geb_spec (Z.of_nat (List.length servers)) id); [|lia].
  unfold loginserver.index.
  destruct (Z.leb_spec 0 (id - 1)); [|lia].
  destruct (Z.ltb_spec (id - 1) (Z.of_nat (List.length servers))); [|lia].
  cbn [andb]. now rewrite Hnth.
Qed.

Lemma play_condition_above_range (requestPlay : loginserver.RequestPlay)
  (h : loginserver.handling) :
  let id := loginserver.rp_ServerID requestPlay in
  let servers :=
    loginserver.GameServers (loginserver.config (loginserver.server h)) in
  Z.of_nat (List.length servers) < id <= 127 ->
  loginserver.play_condition ACCESS_LEVEL_PLAYER ServerID_type requestPlay h
  = Some false.
Proof.
  intros id servers Hid. unfold loginserver.play_condition. fold id servers.
  rewrite (wrap_small loginserver.Tint64 id) by lia.
  destruct (Z.geb_spec (Z.of_nat (List.length servers)) id); [lia|].
  reflexivity.
Qed.

(** A play request whose validity condition is false is answered with a
    play-fail packet and counted, whatever session prefix it carries. *)
Lemma play_request_invalid_target (ext : loginserver.externals)
  (data : list byte) (h : loginserver.handling) :
  loginserver.play_condition ACCESS_LEVEL_PLAYER ServerID_type
    (NewRequestPlay data) h = Some false ->
  loginserver.handle_packet ACCESS_LEVEL_PLAYER ServerID_type
    NewRequestAuthLogin NewRequestPlay NewRequestServerList ext 2 data h
  = Some (loginserver.send
            (loginserver.NewPlayFailPacket loginserver.REASON_ACCESS_FAILED)
            (loginserver.set_status loginserver.incr_hackAttempts h)).
Proof.
  intros Hcond. unfold loginserver.handle_packet. cbn [Z.eqb Pos.eqb].
  unfold loginserver.handle_RequestPlay. now rewrite Hcond.
Qed.

(** C2 at server id 0, whatever integer type the server id has: with up to
    255 realms configured, [len(GameServers) >= 0] holds, the directory is
    indexed at [0 - 1] and the handler panics; no packet is sent and no
    counter is incremented. *)
Theorem play_request_for_server_0_panics (ext : loginserver.externals)
  (data : list byte) (h : loginserver.handling) :
  loginserver.rp_ServerID (NewRequestPlay data) = 0 ->
  (List.length
     (loginserver.GameServers (loginserver.config (loginserver.server h)))
   <= 255)%nat ->
  loginserver.handle_packet ACCESS_LEVEL_PLAYER ServerID_type
    NewRequestAuthLogin NewRequestPlay NewRequestServerList ext 2 data h
  = None
  /\ forall rest,
       loginserver.receive_loop ACCESS_LEVEL_PLAYER ServerID_type
         NewRequestAuthLogin NewRequestPlay NewRequestServerList
         ((ext, loginserver.Packet 2 data) :: rest) h
       = loginserver.Panicked.
Proof.
  intros Hid Hlen.
  assert (E : loginserver.handle_packet ACCESS_LEVEL_PLAYER ServerID_type
                NewRequestAuthLogin NewRequestPlay NewRequestServerList
                ext 2 data h = None).
  { unfold loginserver.handle_packet. cbn [Z.eqb Pos.eqb].
    unfold loginserver.handle_RequestPlay, loginserver.play_condition.
    rewrite Hid. change (loginserver.wrap loginserver.Tint64 0) with 0.
    destruct (Z.geb_spec
                (Z.of_nat
                   (List.length
                      (loginserver.GameServers
                         (loginserver.config (loginserver.server h))))) 0);
      [|lia].
    rewrite index_out_of_range; [reflexivity|].
    destruct (wrap_minus_1 ServerID_type) as [->| ]; lia. }
  split; [exact E|]. intros rest. cbn [loginserver.receive_loop].
  now rewrite E.
Qed.

(** C3 (amended): a play request that passes the validity condition but
    carries a session prefix other than the first 8 bytes of the
    connection's session identifier increments hack-attempts by one (as a
    uint32) and leaves the other counters alone; the response sent is a
    login-fail packet with the access-denied reason; nothing is closed and
    the loop goes on to the next packet. *)
Theorem play_request_with_wrong_session (ext : loginserver.externals)
  (data : list byte) (h : loginserver.handling) :
  let requestPlay := NewRequestPlay data in
  loginserver.play_condition ACCESS_LEVEL_PLAYER ServerID_type requestPlay h
    = Some true ->
  (8 <= List.length (loginserver.SessionID (loginserver.client h)))%nat ->
  loginserver.rp_SessionID requestPlay
    <> firstn 8 (loginserver.SessionID (loginserver.client h)) ->
  exists h' : loginserver.handling,
    loginserver.handle_packet ACCESS_LEVEL_PLAYER ServerID_type
      NewRequestAuthLogin NewRequestPlay NewRequestServerList ext 2 data h = Some h'
    /\ loginserver.status (loginserver.server h')
       = loginserver.incr_hackAttempts (loginserver.status (loginserver.server h))
    /\ loginserver.hackAttempts (loginserver.status (loginserver.server h'))
       = uint32 (loginserver.hackAttempts
                   (loginserver.status (loginserver.server h)) + 1)
    /\ loginserver.trace h'
       = loginserver.trace h
           ++ [loginserver.Send
                 (loginserver.NewLoginFailPacket loginserver.REASON_ACCESS_FAILED)]
    /\ loginserver.clients (loginserver.server h')
       = loginserver.clients (loginserver.server h)
    /\ loginserver.client h' = loginserver.client h
    /\ loginserver.receive_loop ACCESS_LEVEL_PLAYER ServerID_type
         NewRequestAuthLogin NewRequestPlay NewRequestServerList
         [(ext, loginserver.Packet 2 data)] h
       = loginserver.Open h'
    /\ forall rest,
         loginserver.receive_loop ACCESS_LEVEL_PLAYER ServerID_type
      NewRequestAuthLogin NewRequestPlay NewRequestServerList
      ((ext, loginserver.Packet 2 data) :: rest) h
         = loginserver.receive_loop ACCESS_LEVEL_PLAYER ServerID_type
             NewRequestAuthLogin NewRequestPlay NewRequestServerList rest h'.
Proof.
  intros requestPlay Hcond Hlen Hsid.
  assert (E : loginserver.handle_packet ACCESS_LEVEL_PLAYER ServerID_type
      NewRequestAuthLogin NewRequestPlay NewRequestServerList ext 2 data h
              = Some (loginserver.send
                        (loginserver.NewLoginFailPacket
                           loginserver.REASON_ACCESS_FAILED)
                        (loginserver.set_status loginserver.incr_hackAttempts h))).
  { unfold loginserver.handle_packet. cbn [Z.eqb Pos.eqb].
    unfold loginserver.handle_RequestPlay. fold requestPlay. rewrite Hcond.
    unfold loginserver.prefix.
    destruct (Nat.leb_spec 8
                (List.length (loginserver.SessionID (loginserver.client h))));
      [|lia].
    destruct (packets.bytes_Equal _ _) eqn:Eq; [|reflexivity].
    apply bytes_Equal_true in Eq. congruence. }
  eexists. split; [exact E|].
  do 5 (split; [reflexivity|]).
  split; [cbn [loginserver.receive_loop]; now rewrite E|].
  intros rest. cbn [loginserver.receive_loop]. now rewrite E.
Qed.

End HandlerProperties.

(** On the sample server a server-list request with a wrong session prefix
    is handled and each counter is as the theorem says. *)
Lemma counters_never_decrease_below_max_witness :
  let h := samples.sample_handling samples.zero_status in
  let h' := loginserver.send
              (loginserver.NewLoginFailPacket loginserver.REASON_ACCESS_FAILED)
              (loginserver.set_status loginserver.incr_hackAttempts h) in
  loginserver.handle_packet 0 loginserver.Tuint8
    samples.sample_NewRequestAuthLogin samples.sample_NewRequestPlay
    samples.sample_NewRequestServerList samples.sample_externals 5
    [xff; xff; xff; xff; xff; xff; xff; xff] h = Some h'
  /\ Forall (fun counter =>
               let old := counter (loginserver.status (loginserver.server h)) in
               let new := counter (loginserver.status (loginserver.server h')) in
               (new = old \/ new = uint32 (old + 1))
               /\ (0 <= old < 4294967295 -> old <= new))
       loginserver.counters.
Proof.
  cbv zeta.
  assert (E : loginserver.handle_packet 0 loginserver.Tuint8
                samples.sample_NewRequestAuthLogin samples.sample_NewRequestPlay
                samples.sample_NewRequestServerList samples.sample_externals 5
                [xff; xff; xff; xff; xff; xff; xff; xff]
                (samples.sample_handling samples.zero_status)
              = Some (loginserver.send
                        (loginserver.NewLoginFailPacket
                           loginserver.REASON_ACCESS_FAILED)
                        (loginserver.set_status loginserver.incr_hackAttempts
                           (samples.sample_handling samples.zero_status))))
    by reflexivity.
  split; [exact E|].
  exact (counters_never_decrease_below_max 0 loginserver.Tuint8
           samples.sample_NewRequestAuthLogin samples.sample_NewRequestPlay
           samples.sample_NewRequestServerList samples.sample_externals 5
           [xff; xff; xff; xff; xff; xff; xff; xff] _ _ E).
Defined.

(** C9 as stated fails: with hack-attempts at 4294967295, a server-list
    request with a wrong session prefix is handled and leaves hack-attempts
    at 0. *)
Lemma hackAttempts_wraps_to_0 :
  let h := samples.sample_handling
             (loginserver.mkStatus 0 0 0 0 4294967295) in
  exists h' : loginserver.handling,
    loginserver.handle_packet 0 loginserver.Tuint8
      samples.sample_NewRequestAuthLogin samples.sample_NewRequestPlay
      samples.sample_NewRequestServerList samples.sample_externals 5
      [xff; xff; xff; xff; xff; xff; xff; xff] h = Some h'
    /\ loginserver.hackAttempts (loginserver.status (loginserver.server h))
       = 4294967295
    /\ loginserver.hackAttempts (loginserver.status (loginserver.server h')) = 0
    /\ ~ (loginserver.hackAttempts (loginserver.status (loginserver.server h))
          <= loginserver.hackAttempts
               (loginserver.status (loginserver.server h'))).
Proof.
  cbv zeta. eexists. split; [reflexivity|].
  split; [reflexivity|]. split; [reflexivity|].
  vm_compute. intros H. apply H. reflexivity.
Qed.

(** On the sample server the play request for server 0 that carries the
    connection's own session prefix panics. *)
Lemma play_request_for_server_0_panics_witness :
  let data :=
    samples.play_request [x01; x02; x03; x04; x05; x06; x07; x08] x00 in
  let h := samples.sample_handling samples.zero_status in
  loginserver.handle_packet 0 loginserver.Tuint8
    samples.sample_NewRequestAuthLogin samples.sample_NewRequestPlay
    samples.sample_NewRequestServerList samples.sample_externals 2 data h
  = None
  /\ forall rest,
       loginserver.receive_loop 0 loginserver.Tuint8
         samples.sample_NewRequestAuthLogin samples.sample_NewRequestPlay
         samples.sample_NewRequestServerList
         ((samples.sample_externals, loginserver.Packet 2 data) :: rest) h
       = loginserver.Panicked.
Proof.
  exact (play_request_for_server_0_panics 0 loginserver.Tuint8
           samples.sample_NewRequestAuthLogin samples.sample_NewRequestPlay
           samples.sample_NewRequestServerList samples.sample_externals
           (samples.play_request [x01; x02; x03; x04; x05; x06; x07; x08] x00)
           (samples.sample_handling samples.zero_status)
           eq_refl ltac:(cbn; lia)).
Defined.

(** On the sample server, a play request for server 1 with a session prefix
    of eight 0xff bytes. *)
Lemma play_request_with_wrong_session_witness :
  let data :=
    samples.play_request [xff; xff; xff; xff; xff; xff; xff; xff] x01 in
  let h := samples.sample_handling samples.zero_status in
  exists h' : loginserver.handling,
    loginserver.handle_packet 0 loginserver.Tuint8
      samples.sample_NewRequestAuthLogin samples.sample_NewRequestPlay
      samples.sample_NewRequestServerList samples.sample_externals 2 data h
    = Some h'
    /\ loginserver.hackAttempts (loginserver.status (loginserver.server h')) = 1
    /\ loginserver.trace h'
       = [loginserver.Send
            (loginserver.NewLoginFailPacket loginserver.REASON_ACCESS_FAILED)]
    /\ loginserver.receive_loop 0 loginserver.Tuint8
         samples.sample_NewRequestAuthLogin samples.sample_NewRequestPlay
         samples.sample_NewRequestServerList
         [(samples.sample_externals, loginserver.Packet 2 data)] h
       = loginserver.Open h'.
Proof.
  cbv zeta.
  destruct (play_request_with_wrong_session 0 loginserver.Tuint8
              samples.sample_NewRequestAuthLogin samples.sample_NewRequestPlay
              samples.sample_NewRequestServerList samples.sample_externals
              (samples.play_request [xff; xff; xff; xff; xff; xff; xff; xff] x01)
              (samples.sample_handling samples.zero_status))
    as (h' & E & _ & Hhack & Htrace & _ & _ & Hopen & _).
  - reflexivity.
  - cbn. lia.
  - cbn. discriminate.
  - exists h'. split; [exact E|]. split; [exact Hhack|].
    split; [exact Htrace|exact Hopen].
Defined.

(** C3 as stated fails: the response to that play request is the login-fail
    packet, not a play-fail packet. *)
Lemma wrong_session_response_is_not_play_fail :
  let h := samples.sample_handling samples.zero_status in
  exists h' : loginserver.handling,
    loginserver.play_condition 0 loginserver.Tuint8
      (samples.sample_NewRequestPlay
         (samples.play_request [xff; xff; xff; xff; xff; xff; xff; xff] x01)) h
    = Some true
    /\ loginserver.handle_packet 0 loginserver.Tuint8
         samples.sample_NewRequestAuthLogin samples.sample_NewRequestPlay
         samples.sample_NewRequestServerList samples.sample_externals 2
         (samples.play_request [xff; xff; xff; xff; xff; xff; xff; xff] x01) h
       = Some h'
    /\ loginserver.trace h'
       = [loginserver.Send
            (loginserver.NewLoginFailPacket loginserver.REASON_ACCESS_FAILED)]
    /\ loginserver.trace h'
       <> [loginserver.Send
             (loginserver.NewPlayFailPacket loginserver.REASON_ACCESS_FAILED)].
Proof.
  cbv zeta. eexists. split; [reflexivity|]. split; [reflexivity|].
  split; [reflexivity|]. discriminate.
Qed.

(** * Further properties of the packet codec *)

Lemma length_le_bytes (n : nat) (v : Z) : List.length (le_bytes n v) = n.
Proof.
  revert v. induction n as [|n IH]; intros v; [reflexivity|].
  cbn [le_bytes List.length]. now rewrite IH.
Qed.

(** Reading an integer of [width] bytes where such a value was written. *)
Lemma ReadUInt_written (width : nat) (v : Z) (b rest : list byte) :
  (0 < width)%nat ->
  packets.ReadUInt width
    (packets.mkReader ((b ++ le_bytes width v) ++ rest) (List.length b))
  = (v mod 2 ^ (8 * Z.of_nat width),
     packets.mkReader ((b ++ le_bytes width v) ++ rest)
       (List.length b + width)).
Proof.
  intros Hw. rewrite ReadUInt_enough.
  - cbn [packets.s packets.i]. rewrite <- app_assoc.
    rewrite skipn_app_exact by reflexivity.
    rewrite firstn_app_exact by apply length_le_bytes.
    now rewrite le_value_le_bytes.
  - cbn [packets.s packets.i]. rewrite !length_app, length_le_bytes. lia.
Qed.

(** X1: an unsigned integer written with [WriteUInt16], [WriteUInt32] or
    [WriteUInt64] at the end of any buffer is read back by the reader of the
    same width placed there, reduced modulo [2^16], [2^32] or [2^64], and
    the reader advances by 2, 4 or 8; a byte written with [WriteUInt8] is
    read back by [ReadUInt8].  The writes return no error. *)
Theorem integers_round_trip (b rest : list byte) (v : Z) (c : byte) :
  let at_end (written : option packets.error * packets.Buffer) :=
    packets.mkReader (snd written ++ rest) (List.length b) in
  (fst (packets.WriteUInt16 v b) = None
   /\ packets.ReadUInt16 (at_end (packets.WriteUInt16 v b))
      = (v mod 2 ^ 16,
         packets.mkReader (snd (packets.WriteUInt16 v b) ++ rest)
           (List.length b + 2)))
  /\ (fst (packets.WriteUInt32 v b) = None
      /\ packets.ReadUInt32 (at_end (packets.WriteUInt32 v b))
         = (v mod 2 ^ 32,
            packets.mkReader (snd (packets.WriteUInt32 v b) ++ rest)
              (List.length b + 4)))
  /\ (fst (packets.WriteUInt64 v b) = None
      /\ packets.ReadUInt64 (at_end (packets.WriteUInt64 v b))
         = (v mod 2 ^ 64,
            packets.mkReader (snd (packets.WriteUInt64 v b) ++ rest)
              (List.length b + 8)))
  /\ (fst (packets.WriteUInt8 c b) = None
      /\ packets.ReadUInt8 (at_end (packets.WriteUInt8 c b))
         = (c,
            packets.mkReader (snd (packets.WriteUInt8 c b) ++ rest)
              (List.length b + 1))).
Proof.
  cbv zeta.
  unfold packets.WriteUInt16, packets.WriteUInt32, packets.WriteUInt64,
    packets.WriteUInt8, packets.ReadUInt16, packets.ReadUInt32,
    packets.ReadUInt64, packets.binary_Write, packets.Write.
  cbn [fst snd].
  repeat split; try reflexivity; try (apply ReadUInt_written; lia).
  rewrite ReadUInt8_enough.
  - cbn [packets.s packets.i]. rewrite <- app_assoc.
    rewrite skipn_app_exact by reflexivity.
    cbn [le_bytes app firstn]. rewrite le_value_single.
    now rewrite byte_of_Z_of_byte.
  - cbn [packets.s packets.i]. rewrite !length_app. cbn. lia.
Qed.

Lemma ReadUInt_short (width : nat) (r : packets.Reader) :
  (List.length (packets.s r) - packets.i r < width)%nat ->
  packets.ReadUInt width r
  = (0, packets.mkReader (packets.s r)
          (Nat.max (packets.i r) (List.length (packets.s r)))).
Proof.
  intros H. unfold packets.ReadUInt, bind, ret.
  destruct (Read_short (make x00 width) r) as [buffer' E];
    [rewrite length_make; exact H|].
  rewrite E.
  destruct (Nat.ltb_spec (List.length (packets.s r) - packets.i r) width);
    [reflexivity | lia].
Qed.

(** X2: an integer read with fewer bytes left than its width returns 0 and
    no error, and the bytes that were left are consumed: the reader stands
    at the end of its data afterwards. *)
Theorem short_integer_read_consumes (r : packets.Reader) :
  let remaining := (List.length (packets.s r) - packets.i r)%nat in
  let at_end := packets.mkReader (packets.s r)
                  (Nat.max (packets.i r) (List.length (packets.s r))) in
  ((remaining < 8)%nat -> packets.ReadUInt64 r = (0, at_end))
  /\ ((remaining < 4)%nat -> packets.ReadUInt32 r = (0, at_end))
  /\ ((remaining < 2)%nat -> packets.ReadUInt16 r = (0, at_end))
  /\ ((remaining < 1)%nat -> packets.ReadUInt8 r = (x00, at_end)).
Proof.
  cbv zeta. repeat split; intros H; try (now apply ReadUInt_short).
  unfold packets.ReadUInt8, bind, ret.
  destruct (Read_short (make x00 1) r) as [buffer' E];
    [rewrite length_make; exact H|].
  rewrite E.
  destruct (Nat.ltb_spec (List.length (packets.s r) - packets.i r) 1);
    [reflexivity | lia].
Qed.

(** With three bytes left, [ReadUInt32] returns 0 and the three bytes are
    gone: the [ReadUInt16] that follows returns 0 as well. *)
Lemma short_integer_read_consumes_witness :
  packets.ReadUInt32 (packets.NewReader [x01; x02; x03])
  = (0, packets.mkReader [x01; x02; x03] 3)
  /\ packets.ReadUInt16 (packets.mkReader [x01; x02; x03] 3)
     = (0, packets.mkReader [x01; x02; x03] 3).
Proof.
  split.
  - destruct (short_integer_read_consumes (packets.NewReader [x01; x02; x03]))
      as (_ & H32 & _ & _).
    apply H32. cbn. lia.
  - destruct (short_integer_read_consumes (packets.mkReader [x01; x02; x03] 3))
      as (_ & _ & H16 & _).
    apply H16. cbn. lia.
Defined.

(** X3: [PrependLength] returns no error and leaves the buffer as the
    uint16 of its former length followed by its former contents, two bytes
    longer and never empty.  A reader of the result gets that length from
    [ReadUInt16] and the first [length] bytes of the contents from
    [ReadBytes(length)]: the whole contents when they are shorter than 65536
    bytes. *)
Theorem PrependLength_then_read (data : list byte) :
  let '(err, b) := packets.PrependLength data in
  let '(length, r) := packets.ReadUInt16 (packets.NewReader b) in
  err = None
  /\ b = le_bytes 2 (uint16 (Z.of_nat (List.length data))) ++ data
  /\ fst (packets.Size b) = fst (packets.Size data) + 2
  /\ fst (packets.IsEmpty b) = false
  /\ length = Z.of_nat (List.length data) mod 65536
  /\ fst (packets.ReadBytes length r) = Some (firstn (Z.to_nat length) data)
  /\ (Z.of_nat (List.length data) < 65536 ->
      fst (packets.ReadBytes length r) = Some data).
Proof.
  unfold packets.PrependLength, packets.Bytes, packets.Reset,
    packets.WriteUInt16, packets.WriteBytes, packets.binary_Write,
    packets.Write, packets.NewBuffer, bind, ret.
  cbn [fst snd app].
  set (n := uint16 (Z.of_nat (List.length data))).
  pose proof (ReadUInt_written 2 n [] data ltac:(lia)) as E.
  cbn [app List.length Nat.add] in E.
  unfold packets.ReadUInt16, packets.NewReader. rewrite E.
  assert (Hn : n mod 2 ^ (8 * Z.of_nat 2) = n).
  { subst n. unfold uint16. change (8 * Z.of_nat 2) with 16.
    apply Z.mod_mod. lia. }
  rewrite Hn.
  assert (Hrange : 0 <= n <= Z.of_nat (List.length data)).
  { subst n. unfold uint16.
    pose proof (Z.mod_pos_bound (Z.of_nat (List.length data)) (2 ^ 16)
                  ltac:(lia)).
    pose proof (Z.mod_le (Z.of_nat (List.length data)) (2 ^ 16)
                  ltac:(lia) ltac:(lia)).
    lia. }
  assert (Hread : fst (packets.ReadBytes n
                         (packets.mkReader (le_bytes 2 n ++ data) 2))
                  = Some (firstn (Z.to_nat n) data)).
  { rewrite ReadBytes_enough.
    - cbn [fst packets.s packets.i].
      now rewrite skipn_app_exact by apply length_le_bytes.
    - cbn [packets.s packets.i]. rewrite length_app, length_le_bytes. lia. }
  split; [reflexivity|]. split; [reflexivity|].
  split; [unfold packets.Size; cbn [fst];
          rewrite length_app, length_le_bytes; lia|].
  split; [unfold packets.IsEmpty; cbn [fst];
          rewrite length_app, length_le_bytes;
          destruct (Z.eqb_spec (Z.of_nat (2 + List.length data)) 0);
          [lia | reflexivity]|].
  split; [reflexivity|]. split; [exact Hread|].
  intros Hlt. rewrite Hread. f_equal. apply firstn_all2.
  subst n. unfold uint16. rewrite Z.mod_small by lia. lia.
Qed.

(** A buffer of three bytes gets the prefix 03 00, and the three bytes are
    read back. *)
Lemma PrependLength_then_read_witness :
  let '(err, b) := packets.PrependLength [x0a; x0b; x0c] in
  let '(length, r) := packets.ReadUInt16 (packets.NewReader b) in
  b = [x03; x00; x0a; x0b; x0c]
  /\ length = 3
  /\ fst (packets.ReadBytes length r) = Some [x0a; x0b; x0c].
Proof.
  pose proof (PrependLength_then_read [x0a; x0b; x0c]) as H.
  destruct (packets.PrependLength [x0a; x0b; x0c]) as [err b].
  destruct (packets.ReadUInt16 (packets.NewReader b)) as [length r].
  destruct H as (_ & Hb & _ & _ & Hl & _ & Hall).
  split; [exact Hb|]. split; [exact Hl|].
  apply Hall. cbn. lia.
Defined.

Lemma read_pairs_terminated (body rest : list byte) :
  Nat.even (List.length body) = true ->
  packets.has_terminator body = false ->
  packets.read_pairs (body ++ x00 :: x00 :: rest)
  = (body, (List.length body + 2)%nat).
Proof.
  induction body as [|a|a b body IH] using pair_induction; intros He Ht.
  - reflexivity.
  - discriminate.
  - cbn [List.length Nat.even] in He. cbn [packets.has_terminator] in Ht.
    apply orb_false_iff in Ht. destruct Ht as [Hab Ht].
    cbn [app packets.read_pairs]. rewrite Hab, (IH He Ht).
    cbn [List.length]. do 2 f_equal.
Qed.

(** X4: on data that holds a string body of whole 16-bit units, none of them
    zero, followed by the zero unit, [ReadString] returns exactly the bytes
    of the body, consumes the body and the terminator, and leaves what
    follows unread. *)
Theorem ReadString_stops_at_terminator (pre body rest : list byte) :
  Nat.even (List.length body) = true ->
  packets.has_terminator body = false ->
  packets.ReadString
    (packets.mkReader (pre ++ body ++ x00 :: x00 :: rest) (List.length pre))
  = (Some body,
     packets.mkReader (pre ++ body ++ x00 :: x00 :: rest)
       (List.length pre + List.length body + 2)).
Proof.
  intros He Ht. rewrite ReadString_loop_returns.
  cbn [packets.s packets.i].
  rewrite skipn_app_exact by reflexivity.
  rewrite (read_pairs_terminated body rest He Ht). cbn [fst snd].
  do 2 f_equal. lia.
Qed.

(** Two strings one after the other: the second read starts where the first
    stopped. *)
Lemma ReadString_stops_at_terminator_witness :
  let data := [x41; x00; x00; x00; x42; x00; x43; x00; x00; x00] in
  packets.ReadString (packets.NewReader data)
  = (Some [x41; x00], packets.mkReader data 4)
  /\ packets.ReadString (packets.mkReader data 4)
     = (Some [x42; x00; x43; x00], packets.mkReader data 10).
Proof.
  split.
  - exact (ReadString_stops_at_terminator [] [x41; x00]
             [x42; x00; x43; x00; x00; x00] eq_refl eq_refl).
  - exact (ReadString_stops_at_terminator [x41; x00; x00; x00]
             [x42; x00; x43; x00] [] eq_refl eq_refl).
Defined.

Lemma length_runes_from (fuel : nat) :
  forall value, (List.length (packets.runes_from fuel value) <= fuel)%nat.
Proof.
  induction fuel as [|fuel IH]; intros value; [cbn; lia|].
  cbn [packets.runes_from]. destruct value as [|b0 value]; [cbn; lia|].
  destruct (packets.DecodeRune (b0 :: value)) as [r width].
  cbn [List.length]. specialize (IH (skipn width (b0 :: value))). lia.
Qed.

Lemma length_code_units (rs : list Z) :
  List.length (flat_map (fun r => le_bytes 2 (uint16 r)) rs)
  = (2 * List.length rs)%nat.
Proof.
  induction rs as [|r rs IH]; [reflexivity|].
  cbn [flat_map]. rewrite length_app, length_le_bytes, IH.
  cbn [List.length]. lia.
Qed.

(** X5: [WriteString] returns no error, keeps what the buffer held and
    appends two bytes for each rune of the string and two for the
    terminator: at most [2 * len(value) + 2] bytes. *)
Theorem WriteString_size (value : list byte) (b : packets.Buffer) :
  let '(err, b') := packets.WriteString value b in
  err = None
  /\ firstn (List.length b) b' = b
  /\ List.length b'
     = (List.length b + 2 * List.length (packets.runes value) + 2)%nat
  /\ (List.length b' <= List.length b + 2 * List.length value + 2)%nat.
Proof.
  rewrite WriteString_bytes.
  pose proof (length_runes_from (List.length value) value) as Hr.
  fold (packets.runes value) in Hr.
  split; [reflexivity|]. split; [now apply firstn_app_exact|].
  rewrite !length_app, length_code_units. cbn [List.length]. lia.
Qed.

Lemma runes_ascii (value : list byte) :
  Forall (fun c => Z_of_byte c < 128) value ->
  forall fuel, (List.length value <= fuel)%nat ->
               packets.runes_from fuel value = map Z_of_byte value.
Proof.
  induction 1 as [|c value Hc _ IH]; intros fuel Hf.
  - destruct fuel; reflexivity.
  - destruct fuel as [|fuel]; [cbn in Hf; lia|].
    cbn [packets.runes_from packets.DecodeRune].
    destruct (Z.ltb_spec (Z_of_byte c) 128); [|lia].
    cbn [skipn map]. rewrite IH by (cbn in Hf; lia). reflexivity.
Qed.

Lemma code_unit_ascii (c : byte) :
  le_bytes 2 (uint16 (Z_of_byte c)) = [c; x00].
Proof.
  pose proof (Z_of_byte_range c) as Hc.
  unfold uint16. rewrite Z.mod_small by lia.
  cbn [le_bytes]. rewrite byte_of_Z_of_byte.
  rewrite Z.shiftr_div_pow2, Z.div_small by lia. reflexivity.
Qed.

(** X6: for a string of ASCII characters other than NUL, [WriteString]
    writes each character followed by a zero byte, then the terminator, and
    [ReadString] on these bytes returns the characters each followed by a
    zero byte: a string twice as long as the one written. *)
Theorem ASCII_string_comes_back_widened (value : list byte) :
  Forall (fun c => 0 < Z_of_byte c < 128) value ->
  let written := snd (packets.WriteString value packets.NewBuffer) in
  let read := fst (packets.ReadString (packets.NewReader written)) in
  written = flat_map (fun c => [c; x00]) value ++ [x00; x00]
  /\ read = Some (flat_map (fun c => [c; x00]) value)
  /\ forall s, read = Some s -> List.length s = (2 * List.length value)%nat.
Proof.
  intros Hv. cbv zeta.
  assert (Hr : packets.runes value = map Z_of_byte value).
  { apply runes_ascii; [|reflexivity].
    revert Hv. apply Forall_impl. intros c Hc. lia. }
  assert (Hunits : flat_map (fun r => le_bytes 2 (uint16 r)) (packets.runes value)
                   = flat_map (fun c => [c; x00]) value).
  { rewrite Hr. clear. induction value as [|c value IH]; [reflexivity|].
    cbn [map flat_map]. now rewrite IH, code_unit_ascii. }
  assert (Hread : fst (packets.ReadString
                         (packets.NewReader
                            (snd (packets.WriteString value packets.NewBuffer))))
                  = Some (flat_map (fun c => [c; x00]) value)).
  { rewrite ReadString_WriteString_code_units; [now rewrite Hunits|].
    rewrite Hr. apply Forall_map. revert Hv. apply Forall_impl.
    intros c Hc. unfold uint16. rewrite Z.mod_small; lia. }
  split; [rewrite WriteString_bytes; cbn [snd packets.NewBuffer app];
          now rewrite Hunits|].
  split; [exact Hread|].
  intros s Hs. rewrite Hread in Hs. injection Hs as <-.
  clear. induction value as [|c value IH]; [reflexivity|].
  cbn [flat_map List.length app]. rewrite IH. lia.
Qed.

(** The string "Hi". *)
Lemma ASCII_string_comes_back_widened_witness :
  snd (packets.WriteString [x48; x69] packets.NewBuffer)
  = [x48; x00; x69; x00; x00; x00]
  /\ fst (packets.ReadString
            (packets.NewReader
               (snd (packets.WriteString [x48; x69] packets.NewBuffer))))
     = Some [x48; x00; x69; x00].
Proof.
  destruct (ASCII_string_comes_back_widened [x48; x69]) as (Hw & Hr & _).
  - repeat constructor; cbn; lia.
  - split; [exact Hw | exact Hr].
Defined.

(** * Further properties of the cipher engines and protocols *)

Lemma new_packet_bytes (opcode : byte) (data : list byte) :
  protocol.new_packet opcode data = opcode :: data.
Proof.
  unfold protocol.new_packet, make. cbn [Nat.add repeat skipn firstn app].
  now rewrite copy_same_length by apply repeat_length.
Qed.

(** Encrypting on an engine with a lawful cipher, and decrypting the
    result. *)
Lemma Blowfish_encrypt_then_decrypt (c : protocol.Block)
  (ce : protocol.CryptoEngine) (m : list byte) :
  protocol.blowfishCipher ce = Some c ->
  protocol.BlockLaws c ->
  exists (encrypted : list byte) (pad : nat),
    protocol.EncryptBlowfish m ce = protocol.Returns encrypted
    /\ protocol.DecryptBlowfish encrypted ce
       = protocol.Returns (m ++ repeat x00 pad)
    /\ List.length encrypted = (List.length m + pad)%nat
    /\ (pad < protocol.BlockSize c)%nat
    /\ ((List.length m + pad) mod protocol.BlockSize c = 0)%nat.
Proof.
  intros Hc Hlaws. pose proof Hlaws as [Hpos Hlen Hdlen Hinv].
  set (bs := protocol.BlockSize c) in *.
  destruct (padded_bytes m bs Hpos) as (_ & Hsum & Hlt).
  set (k := ((List.length m + bs - 1) / bs)%nat) in *.
  set (pad := (k * bs - List.length m)%nat) in *.
  assert (Hpl : List.length (m ++ repeat x00 pad) = (k * bs)%nat)
    by (rewrite length_app, repeat_length; exact Hsum).
  assert (Hel : List.length
                  (protocol.map_blocks k (protocol.Encrypt c) bs
                     (m ++ repeat x00 pad)) = (k * bs)%nat)
    by (apply length_map_blocks; assumption).
  exists (protocol.map_blocks k (protocol.Encrypt c) bs (m ++ repeat x00 pad)),
    pad.
  split; [exact (EncryptBlowfish_returns c ce m Hc Hlaws)|].
  split.
  - rewrite (DecryptBlowfish_returns c ce _ k Hc Hlaws) by exact Hel.
    subst bs. now rewrite map_blocks_inverse.
  - split; [now rewrite Hel, Hsum|]. split; [exact Hlt|].
    rewrite Hsum. apply Nat.Div0.mod_mul.
Qed.

(** X7: with an initialized lawful cipher [EncryptBlowfish] returns a whole
    number of blocks, at least as long as the data and less than one block
    longer; empty data gives an empty result. *)
Theorem EncryptBlowfish_length (c : protocol.Block)
  (ce : protocol.CryptoEngine) (m : list byte) :
  protocol.blowfishCipher ce = Some c ->
  protocol.BlockLaws c ->
  exists encrypted : list byte,
    protocol.EncryptBlowfish m ce = protocol.Returns encrypted
    /\ (List.length encrypted mod protocol.BlockSize c = 0)%nat
    /\ (List.length m <= List.length encrypted
        < List.length m + protocol.BlockSize c)%nat
    /\ (m = [] -> encrypted = []).
Proof.
  intros Hc Hlaws.
  destruct (Blowfish_encrypt_then_decrypt c ce m Hc Hlaws)
    as (encrypted & pad & He & _ & Hl & Hlt & Hmod).
  exists encrypted. split; [exact He|]. rewrite Hl.
  split; [exact Hmod|]. split; [lia|].
  intros ->. cbn [List.length Nat.add] in *.
  rewrite Nat.mod_small in Hmod by exact Hlt. subst pad.
  now destruct encrypted.
Qed.

Lemma EncryptBlowfish_length_witness :
  let ce := protocol.mkCryptoEngine (Some (samples.mask_block x5a)) None in
  exists encrypted : list byte,
    protocol.EncryptBlowfish [x01; x02; x03; x04; x05; x06; x07; x08; x09] ce
    = protocol.Returns encrypted
    /\ (List.length encrypted mod 8 = 0)%nat
    /\ (9 <= List.length encrypted < 9 + 8)%nat.
Proof.
  destruct (EncryptBlowfish_length (samples.mask_block x5a)
              (protocol.mkCryptoEngine (Some (samples.mask_block x5a)) None)
              [x01; x02; x03; x04; x05; x06; x07; x08; x09]
              eq_refl (mask_block_laws x5a))
    as (encrypted & He & Hmod & Hlen & _).
  exists encrypted. split; [exact He|]. split; [exact Hmod | exact Hlen].
Defined.

Lemma DecryptBlowfish_partial_block (c : protocol.Block)
  (ce : protocol.CryptoEngine) (data : list byte) :
  protocol.blowfishCipher ce = Some c ->
  protocol.BlockLaws c ->
  (List.length data mod protocol.BlockSize c <> 0)%nat ->
  protocol.DecryptBlowfish data ce
  = protocol.Fails protocol.ErrNotBlockMultiple.
Proof.
  intros Hc [Hpos _ _ _] Hm.
  unfold protocol.DecryptBlowfish. rewrite Hc.
  destruct (Nat.eqb_spec (protocol.BlockSize c) 0); [lia|].
  destruct (Nat.eqb_spec
              (List.length data mod protocol.BlockSize c) 0); [lia|].
  reflexivity.
Qed.

Lemma DecryptBlowfish_whole_blocks (c : protocol.Block)
  (ce : protocol.CryptoEngine) (data : list byte) :
  protocol.blowfishCipher ce = Some c ->
  protocol.BlockLaws c ->
  (List.length data mod protocol.BlockSize c = 0)%nat ->
  exists decrypted : list byte,
    protocol.DecryptBlowfish data ce = protocol.Returns decrypted
    /\ List.length decrypted = List.length data.
Proof.
  intros Hc Hlaws Hm. pose proof Hlaws as [Hpos _ Hdlen _].
  assert (Hk : List.length data
               = (List.length data / protocol.BlockSize c
                  * protocol.BlockSize c)%nat).
  { pose proof (Nat.div_mod_eq (List.length data) (protocol.BlockSize c)).
    lia. }
  eexists. split.
  - exact (DecryptBlowfish_returns c ce data _ Hc Hlaws Hk).
  - rewrite (length_map_blocks _ _ Hpos Hdlen _ data Hk). now rewrite <- Hk.
Qed.

(** X8: with an initialized lawful cipher [DecryptBlowfish] returns the
    error "data length must be multiple of block size" exactly for data that
    is not a whole number of blocks, and otherwise returns data of the same
    length; it never panics. *)
Theorem DecryptBlowfish_checks_length (c : protocol.Block)
  (ce : protocol.CryptoEngine) (data : list byte) :
  protocol.blowfishCipher ce = Some c ->
  protocol.BlockLaws c ->
  ((List.length data mod protocol.BlockSize c <> 0)%nat ->
   protocol.DecryptBlowfish data ce
   = protocol.Fails protocol.ErrNotBlockMultiple)
  /\ ((List.length data mod protocol.BlockSize c = 0)%nat ->
      exists decrypted : list byte,
        protocol.DecryptBlowfish data ce = protocol.Returns decrypted
        /\ List.length decrypted = List.length data).
Proof.
  intros Hc Hlaws. split; intros Hm.
  - now apply (DecryptBlowfish_partial_block c).
  - now apply (DecryptBlowfish_whole_blocks c).
Qed.

Lemma DecryptBlowfish_checks_length_witness :
  let ce := protocol.mkCryptoEngine (Some (samples.mask_block x5a)) None in
  protocol.DecryptBlowfish [x01; x02; x03] ce
  = protocol.Fails protocol.ErrNotBlockMultiple
  /\ exists decrypted : list byte,
       protocol.DecryptBlowfish [x01; x02; x03; x04; x05; x06; x07; x08] ce
       = protocol.Returns decrypted
       /\ List.length decrypted = 8%nat.
Proof.
  split.
  - destruct (DecryptBlowfish_checks_length (samples.mask_block x5a)
                (protocol.mkCryptoEngine (Some (samples.mask_block x5a)) None)
                [x01; x02; x03] eq_refl (mask_block_laws x5a)) as [Hbad _].
    apply Hbad. cbn. discriminate.
  - destruct (DecryptBlowfish_checks_length (samples.mask_block x5a)
                (protocol.mkCryptoEngine (Some (samples.mask_block x5a)) None)
                [x01; x02; x03; x04; x05; x06; x07; x08]
                eq_refl (mask_block_laws x5a)) as [_ Hok].
    apply Hok. reflexivity.
Defined.

(** X9: a handler whose engine holds no Blowfish cipher sends login packets
    in the clear, the opcode followed by the data, and decodes them back;
    one whose engine holds no XOR cipher does the same with game packets.
    The handler is left as it was. *)
Theorem clear_text_packets_round_trip (x : protocol.xor_package)
  (h : protocol.Handler) (opcode : byte) (data : list byte) :
  (protocol.blowfishCipher (protocol.cryptoEngine h) = None ->
   protocol.Handler_EncodeLoginPacket opcode data h
   = (protocol.Value (opcode :: data), h)
   /\ protocol.Handler_DecodeLoginPacket (opcode :: data) h
      = (protocol.Value (opcode, data), h))
  /\ (protocol.xorCipher (protocol.cryptoEngine h) = None ->
      protocol.Handler_EncodeGamePacket x opcode data h
      = (protocol.Value (opcode :: data), h)
      /\ protocol.Handler_DecodeGamePacket x (opcode :: data) h
         = (protocol.Value (opcode, data), h)).
Proof.
  destruct h as [ce]. cbn [protocol.cryptoEngine].
  split; intros Hnone.
  - unfold protocol.Handler_EncodeLoginPacket,
      protocol.Handler_DecodeLoginPacket, protocol.LoginProtocol_EncodePacket,
      protocol.LoginProtocol_DecodePacket, protocol.HasBlowfish.
    cbn [protocol.cryptoEngine]. rewrite Hnone, new_packet_bytes.
    split; reflexivity.
  - unfold protocol.Handler_EncodeGamePacket,
      protocol.Handler_DecodeGamePacket, protocol.GameProtocol_EncodePacket,
      protocol.GameProtocol_DecodePacket, protocol.HasXOR.
    cbn [protocol.cryptoEngine]. rewrite Hnone, new_packet_bytes.
    split; reflexivity.
Qed.

Lemma clear_text_packets_round_trip_witness :
  protocol.Handler_EncodeLoginPacket x00 [x61; x62] protocol.NewHandler
  = (protocol.Value [x00; x61; x62], protocol.NewHandler)
  /\ protocol.Handler_DecodeLoginPacket [x00; x61; x62] protocol.NewHandler
     = (protocol.Value (x00, [x61; x62]), protocol.NewHandler).
Proof.
  destruct (clear_text_packets_round_trip samples.rolling_xor
              protocol.NewHandler x00 [x61; x62]) as [Hlogin _].
  apply Hlogin. reflexivity.
Defined.

(** X10: after [InitializeBlowfish] with a key the cipher accepts, a login
    packet encoded by the handler is a whole number of blocks, and decoding
    it gives the opcode back and the data followed by the zero bytes that
    filled the last block (so with a block size of 8 a packet without data
    comes back with seven zero bytes of data). *)
Theorem Blowfish_login_packets_round_trip
  (blowfish_NewCipher : list byte -> option protocol.Block)
  (key : list byte) (c : protocol.Block) (h : protocol.Handler)
  (opcode : byte) (data : list byte) :
  blowfish_NewCipher key = Some c ->
  protocol.BlockLaws c ->
  let '(err, h1) :=
    protocol.Handler_InitializeBlowfish blowfish_NewCipher key h in
  err = None
  /\ exists (encoded : list byte) (pad : nat),
      protocol.Handler_EncodeLoginPacket opcode data h1
      = (protocol.Value encoded, h1)
      /\ (List.length encoded mod protocol.BlockSize c = 0)%nat
      /\ protocol.Handler_DecodeLoginPacket encoded h1
         = (protocol.Value (opcode, data ++ repeat x00 pad), h1)
      /\ (pad < protocol.BlockSize c)%nat
      /\ ((1 + List.length data + pad) mod protocol.BlockSize c = 0)%nat.
Proof.
  intros Hnew Hlaws.
  unfold protocol.Handler_InitializeBlowfish, protocol.InitializeBlowfish.
  rewrite Hnew. split; [reflexivity|].
  set (ce := protocol.mkCryptoEngine (Some c)
               (protocol.xorCipher (protocol.cryptoEngine h))).
  destruct (Blowfish_encrypt_then_decrypt c ce (opcode :: data) eq_refl Hlaws)
    as (encrypted & pad & He & Hd & Hl & Hlt & Hmod).
  exists encrypted, pad.
  unfold protocol.Handler_EncodeLoginPacket,
    protocol.Handler_DecodeLoginPacket, protocol.LoginProtocol_EncodePacket,
    protocol.LoginProtocol_DecodePacket.
  cbn [protocol.cryptoEngine protocol.HasBlowfish protocol.blowfishCipher ce].
  fold ce. rewrite new_packet_bytes, He, Hd.
  split; [reflexivity|]. split; [now rewrite Hl|].
  split; [|split; [exact Hlt | exact Hmod]].
  destruct (Nat.eqb_spec (List.length encrypted) 0) as [E0|_];
    [rewrite Hl in E0; cbn in E0; lia | reflexivity].
Qed.

(** With the sample cipher: the packet of opcode 0 and no data comes back
    with seven zero bytes of data. *)
Lemma Blowfish_login_packets_round_trip_witness :
  let '(err, h1) :=
    protocol.Handler_InitializeBlowfish samples.mask_NewCipher [x5a]
      protocol.NewHandler in
  exists encoded : list byte,
    protocol.Handler_EncodeLoginPacket x00 [] h1 = (protocol.Value encoded, h1)
    /\ protocol.Handler_DecodeLoginPacket encoded h1
       = (protocol.Value (x00, repeat x00 7), h1).
Proof.
  pose proof (Blowfish_login_packets_round_trip samples.mask_NewCipher [x5a]
                (samples.mask_block x5a) protocol.NewHandler x00 []
                eq_refl (mask_block_laws x5a)) as H.
  destruct (protocol.Handler_InitializeBlowfish samples.mask_NewCipher [x5a]
              protocol.NewHandler) as [err h1].
  destruct H as (_ & encoded & pad & He & _ & Hd & Hlt & Hmod).
  exists encoded. split; [exact He|].
  cbn [protocol.BlockSize samples.mask_block List.length Nat.add] in Hlt, Hmod.
  assert (pad = 7%nat) as ->.
  { do 8 (destruct pad as [|pad]; [try discriminate Hmod; try reflexivity|]).
    lia. }
  exact Hd.
Defined.

(** X11: [DecodePacket] of the login protocol returns "empty packet" for
    empty input whatever the engine holds.  With a lawful Blowfish cipher it
    returns the wrapped length error for input that is not a whole number of
    blocks, and for any other input the first decrypted byte as the opcode
    and the rest as the data. *)
Theorem LoginProtocol_DecodePacket_outcomes (c : protocol.Block)
  (ce : protocol.CryptoEngine) (raw : list byte) :
  protocol.LoginProtocol_DecodePacket [] ce
  = protocol.Failure protocol.ErrEmptyPacket
  /\ (protocol.blowfishCipher ce = Some c ->
      protocol.BlockLaws c ->
      ((List.length raw mod protocol.BlockSize c <> 0)%nat ->
       protocol.LoginProtocol_DecodePacket raw ce
       = protocol.Failure
           (protocol.ErrDecryptLoginPacket protocol.ErrNotBlockMultiple))
      /\ (raw <> [] ->
          (List.length raw mod protocol.BlockSize c = 0)%nat ->
          exists (opcode : byte) (data : list byte),
            protocol.LoginProtocol_DecodePacket raw ce
            = protocol.Value (opcode, data)
            /\ protocol.DecryptBlowfish raw ce
               = protocol.Returns (opcode :: data)
            /\ (1 + List.length data = List.length raw)%nat)).
Proof.
  split; [reflexivity|]. intros Hc Hlaws.
  unfold protocol.LoginProtocol_DecodePacket, protocol.HasBlowfish.
  rewrite Hc. split.
  - intros Hm. rewrite (DecryptBlowfish_partial_block c ce raw Hc Hlaws Hm).
    destruct (Nat.eqb_spec (List.length raw) 0) as [E0|_]; [|reflexivity].
    rewrite E0 in Hm. now rewrite Nat.Div0.mod_0_l in Hm.
  - intros Hne Hm.
    destruct (DecryptBlowfish_whole_blocks c ce raw Hc Hlaws Hm)
      as (decrypted & Hd & Hl).
    rewrite Hd.
    destruct (Nat.eqb_spec (List.length raw) 0) as [E0|_];
      [destruct raw; [congruence | discriminate]|].
    destruct decrypted as [|opcode data];
      [destruct raw; [congruence | discriminate]|].
    exists opcode, data. repeat split. exact Hl.
Qed.

Lemma LoginProtocol_DecodePacket_outcomes_witness :
  let ce := protocol.mkCryptoEngine (Some (samples.mask_block x5a)) None in
  protocol.LoginProtocol_DecodePacket [x01; x02; x03] ce
  = protocol.Failure
      (protocol.ErrDecryptLoginPacket protocol.ErrNotBlockMultiple)
  /\ exists (opcode : byte) (data : list byte),
       protocol.LoginProtocol_DecodePacket
         [x01; x02; x03; x04; x05; x06; x07; x08] ce
       = protocol.Value (opcode, data)
       /\ (1 + List.length data = 8)%nat.
Proof.
  split.
  - destruct (LoginProtocol_DecodePacket_outcomes (samples.mask_block x5a)
                (protocol.mkCryptoEngine (Some (samples.mask_block x5a)) None)
                [x01; x02; x03]) as [_ H].
    destruct (H eq_refl (mask_block_laws x5a)) as [Hbad _].
    apply Hbad. cbn. discriminate.
  - destruct (LoginProtocol_DecodePacket_outcomes (samples.mask_block x5a)
                (protocol.mkCryptoEngine (Some (samples.mask_block x5a)) None)
                [x01; x02; x03; x04; x05; x06; x07; x08]) as [_ H].
    destruct (H eq_refl (mask_block_laws x5a)) as [_ Hok].
    destruct (Hok ltac:(discriminate) eq_refl) as (opcode & data & Hv & _ & Hl).
    exists opcode, data. split; [exact Hv | exact Hl].
Defined.

Lemma length_rolling_encrypt (raw key : list byte) :
  forall (i : nat) (temp : byte),
    List.length (samples.rolling_encrypt raw key i temp) = List.length raw.
Proof.
  induction raw as [|b raw IH]; intros i temp; [reflexivity|].
  cbn [samples.rolling_encrypt List.length]. now rewrite IH.
Qed.

(** X12: after [InitializeXOR], with an xor package in which decrypting
    under a key undoes encrypting under it and encrypting keeps the length
    of the data, a game packet encoded by the handler decodes to the same
    opcode and data, and neither call changes the handler. *)
Theorem XOR_game_packets_round_trip (x : protocol.xor_package)
  (key : list byte) (h : protocol.Handler) (opcode : byte)
  (data : list byte) :
  protocol.XorLaws x ->
  (forall raw k, List.length (fst (protocol.xor_Encrypt x raw k))
                 = List.length raw) ->
  let '(err, h1) := protocol.Handler_InitializeXOR x key h in
  err = None
  /\ exists encoded : list byte,
      protocol.Handler_EncodeGamePacket x opcode data h1
      = (protocol.Value encoded, h1)
      /\ List.length encoded = (1 + List.length data)%nat
      /\ protocol.Handler_DecodeGamePacket x encoded h1
         = (protocol.Value (opcode, data), h1).
Proof.
  intros Hlaws Hlen.
  destruct (InitializeXOR_keys x Hlaws key (protocol.cryptoEngine h))
    as [k Hk].
  unfold protocol.Handler_InitializeXOR.
  destruct (protocol.InitializeXOR x key (protocol.cryptoEngine h))
    as [err ce] eqn:Einit.
  cbn [snd] in Hk. subst ce.
  assert (Herr : err = None).
  { unfold protocol.InitializeXOR in Einit. now inversion Einit. }
  split; [exact Herr|].
  set (ce := protocol.mkCryptoEngine
               (protocol.blowfishCipher (protocol.cryptoEngine h))
               (Some (protocol.mkCipher k k))).
  assert (Hc : protocol.xorCipher ce = Some (protocol.mkCipher k k))
    by reflexivity.
  exists (fst (protocol.xor_Encrypt x (opcode :: data) k)).
  unfold protocol.Handler_EncodeGamePacket, protocol.Handler_DecodeGamePacket,
    protocol.GameProtocol_EncodePacket, protocol.GameProtocol_DecodePacket.
  cbn [protocol.cryptoEngine protocol.HasXOR protocol.xorCipher ce]. fold ce.
  rewrite new_packet_bytes, (EncryptXOR_engine x ce k _ Hc).
  rewrite (DecryptXOR_engine x ce k _ Hc).
  destruct Hlaws as [_ Hinv]. rewrite Hinv, Hlen.
  split; [reflexivity|]. split; [reflexivity|].
  reflexivity.
Qed.

Lemma XOR_game_packets_round_trip_witness :
  let '(err, h1) :=
    protocol.Handler_InitializeXOR samples.rolling_xor
      [x01; x02; x03; x04; x05; x06; x07; x08] protocol.NewHandler in
  exists encoded : list byte,
    protocol.Handler_EncodeGamePacket samples.rolling_xor x0d [x61; x62] h1
    = (protocol.Value encoded, h1)
    /\ List.length encoded = 3%nat
    /\ protocol.Handler_DecodeGamePacket samples.rolling_xor encoded h1
       = (protocol.Value (x0d, [x61; x62]), h1).
Proof.
  pose proof (XOR_game_packets_round_trip samples.rolling_xor
                [x01; x02; x03; x04; x05; x06; x07; x08] protocol.NewHandler
                x0d [x61; x62] rolling_xor_laws
                (fun raw k => length_rolling_encrypt raw k 0 x00)) as H.
  destruct (protocol.Handler_InitializeXOR samples.rolling_xor
              [x01; x02; x03; x04; x05; x06; x07; x08] protocol.NewHandler)
    as [err h1].
  destruct H as (_ & encoded & He & Hl & Hd).
  exists encoded. split; [exact He|]. split; [exact Hl | exact Hd].
Defined.

(** X13: the two cipher contexts of an engine do not interact.
    [InitializeXOR] changes nothing about what [EncryptBlowfish] and
    [DecryptBlowfish] return, [InitializeBlowfish] changes nothing about
    what [EncryptXOR] and [DecryptXOR] return, and a key that the Blowfish
    cipher rejects leaves the whole engine as it was, with the error
    returned. *)
Theorem cipher_contexts_do_not_interact (x : protocol.xor_package)
  (blowfish_NewCipher : list byte -> option protocol.Block)
  (key m : list byte) (ce : protocol.CryptoEngine) :
  (let ce' := snd (protocol.InitializeXOR x key ce) in
   protocol.EncryptBlowfish m ce' = protocol.EncryptBlowfish m ce
   /\ protocol.DecryptBlowfish m ce' = protocol.DecryptBlowfish m ce
   /\ protocol.HasBlowfish ce' = protocol.HasBlowfish ce)
  /\ (let ce' := snd (protocol.InitializeBlowfish blowfish_NewCipher key ce) in
      fst (protocol.EncryptXOR x m ce') = fst (protocol.EncryptXOR x m ce)
      /\ fst (protocol.DecryptXOR x m ce') = fst (protocol.DecryptXOR x m ce)
      /\ protocol.HasXOR ce' = protocol.HasXOR ce)
  /\ (blowfish_NewCipher key = None ->
      protocol.InitializeBlowfish blowfish_NewCipher key ce
      = (Some protocol.ErrCreateBlowfish, ce)).
Proof.
  split; [|split].
  - cbv zeta. unfold protocol.InitializeXOR, protocol.EncryptBlowfish,
      protocol.DecryptBlowfish, protocol.HasBlowfish.
    cbn [snd protocol.blowfishCipher]. repeat split.
  - cbv zeta. unfold protocol.InitializeBlowfish.
    destruct (blowfish_NewCipher key); cbn [snd]; [|repeat split].
    unfold protocol.EncryptXOR, protocol.DecryptXOR, protocol.HasXOR.
    cbn [protocol.xorCipher].
    destruct (protocol.xorCipher ce) as [cipher|]; [|repeat split].
    destruct (protocol.xor_Encrypt x _ _), (protocol.xor_Decrypt x _ _).
    repeat split.
  - intros Hnone. unfold protocol.InitializeBlowfish. now rewrite Hnone.
Qed.

(** The sample cipher rejects the empty key: an engine already keyed keeps
    its cipher. *)
Lemma cipher_contexts_do_not_interact_witness :
  let ce := protocol.mkCryptoEngine (Some (samples.mask_block x5a)) None in
  protocol.InitializeBlowfish samples.mask_NewCipher [] ce
  = (Some protocol.ErrCreateBlowfish, ce).
Proof.
  destruct (cipher_contexts_do_not_interact samples.rolling_xor
              samples.mask_NewCipher [] []
              (protocol.mkCryptoEngine (Some (samples.mask_block x5a)) None))
    as (_ & _ & Hrej).
  apply Hrej. reflexivity.
Defined.

(** X14: [InitializeXOR] never fails and always leaves an XOR cipher in the
    engine.  A key shorter than 8 bytes is ignored: the engine gets the
    package's default cipher.  Of a longer key only the first 8 bytes are
    used, and they become both keys when the default keys are 8 bytes
    long. *)
Theorem InitializeXOR_key_handling (x : protocol.xor_package)
  (key : list byte) (ce : protocol.CryptoEngine) :
  let '(err, ce') := protocol.InitializeXOR x key ce in
  err = None
  /\ protocol.HasXOR ce' = true
  /\ ((List.length key < 8)%nat ->
      protocol.xorCipher ce' = Some (protocol.xor_NewCipher x))
  /\ ((8 <= List.length key)%nat ->
      protocol.InitializeXOR x (firstn 8 key) ce = (err, ce')
      /\ (List.length (protocol.InputKey (protocol.xor_NewCipher x)) = 8%nat ->
          List.length (protocol.OutputKey (protocol.xor_NewCipher x)) = 8%nat ->
          protocol.xorCipher ce'
          = Some (protocol.mkCipher (firstn 8 key) (firstn 8 key)))).
Proof.
  unfold protocol.InitializeXOR.
  split; [reflexivity|]. split; [reflexivity|]. split.
  - intros Hlt. destruct (Nat.leb_spec 8 (List.length key)); [lia|].
    reflexivity.
  - intros Hge. destruct (Nat.leb_spec 8 (List.length key)); [|lia].
    rewrite firstn_firstn, Nat.min_id.
    rewrite length_firstn, Nat.min_l by lia. cbn [Nat.leb].
    split; [reflexivity|].
    intros Hi Ho. cbn [protocol.xorCipher].
    rewrite !copy_same_length by (rewrite length_firstn; lia).
    reflexivity.
Qed.

Lemma InitializeXOR_key_handling_witness :
  protocol.xorCipher
    (snd (protocol.InitializeXOR samples.rolling_xor [x01; x02; x03]
            protocol.NewCryptoEngine))
  = Some (protocol.mkCipher samples.rolling_key samples.rolling_key)
  /\ protocol.xorCipher
       (snd (protocol.InitializeXOR samples.rolling_xor
               [x01; x02; x03; x04; x05; x06; x07; x08; x09; x0a]
               protocol.NewCryptoEngine))
     = Some (protocol.mkCipher [x01; x02; x03; x04; x05; x06; x07; x08]
                               [x01; x02; x03; x04; x05; x06; x07; x08]).
Proof.
  split.
  - pose proof (InitializeXOR_key_handling samples.rolling_xor
                  [x01; x02; x03] protocol.NewCryptoEngine) as H.
    destruct (protocol.InitializeXOR samples.rolling_xor [x01; x02; x03]
                protocol.NewCryptoEngine) as [err ce'].
    destruct H as (_ & _ & Hshort & _).
    apply Hshort. cbn. lia.
  - pose proof (InitializeXOR_key_handling samples.rolling_xor
                  [x01; x02; x03; x04; x05; x06; x07; x08; x09; x0a]
                  protocol.NewCryptoEngine) as H.
    destruct (protocol.InitializeXOR samples.rolling_xor
                [x01; x02; x03; x04; x05; x06; x07; x08; x09; x0a]
                protocol.NewCryptoEngine) as [err ce'].
    destruct H as (_ & _ & _ & Hlong).
    destruct (Hlong ltac:(cbn; lia)) as [_ Hkeys].
    apply Hkeys; reflexivity.
Defined.

(** * Further properties of the login server *)

Section LoginRequests.

Variable ACCESS_LEVEL_PLAYER : Z.
Variable ServerID_type : loginserver.int_type.
Variable NewRequestAuthLogin : list byte -> loginserver.RequestAuthLogin.
Variable NewRequestPlay : list byte -> loginserver.RequestPlay.
Variable NewRequestServerList : list byte -> loginserver.RequestServerList.

Ltac auth_login :=
  unfold loginserver.handle_packet; cbn [Z.eqb];
  unfold loginserver.handle_RequestAuthLogin.

(** X15: an auth-login request for a user the store does not know, with
    auto-create enabled.  When hashing and inserting succeed, the new
    account (the inserted id, the user name, the hash, the player access
    level) is bound to the client, successful-account-creation is
    incremented and login-ok with the client's session identifier is sent.
    When hashing or inserting fails, failed-account-creation is incremented,
    the client's account is left alone and login-fail with the system-error
    reason is sent. *)
Theorem auto_provisioning (ext : loginserver.externals) (data : list byte)
  (h : loginserver.handling) :
  let request := NewRequestAuthLogin data in
  let handled :=
    loginserver.handle_packet ACCESS_LEVEL_PLAYER ServerID_type
      NewRequestAuthLogin NewRequestPlay NewRequestServerList ext 0 data h in
  let refused :=
    Some (loginserver.send
            (loginserver.NewLoginFailPacket loginserver.REASON_SYSTEM_ERROR)
            (loginserver.set_status loginserver.incr_failedAccountCreation h)) in
  loginserver.QueryRow ext (loginserver.ral_Username request)
    = loginserver.ErrNoRows ->
  loginserver.AutoCreate (loginserver.config (loginserver.server h)) = true ->
  (forall hashed accountId,
      loginserver.GenerateFromPassword ext (loginserver.ral_Password request)
        = Some hashed ->
      loginserver.Exec_insert ext (loginserver.ral_Username request) hashed
        ACCESS_LEVEL_PLAYER = Some accountId ->
      handled
      = Some (loginserver.send
                (loginserver.NewLoginOkPacket
                   (loginserver.SessionID (loginserver.client h)))
                (loginserver.set_status
                   loginserver.incr_successfulAccountCreation
                   (loginserver.set_account
                      (loginserver.mkAccount accountId
                         (loginserver.ral_Username request) hashed
                         ACCESS_LEVEL_PLAYER) h))))
  /\ (loginserver.GenerateFromPassword ext (loginserver.ral_Password request)
        = None -> handled = refused)
  /\ (forall hashed,
        loginserver.GenerateFromPassword ext (loginserver.ral_Password request)
          = Some hashed ->
        loginserver.Exec_insert ext (loginserver.ral_Username request) hashed
          ACCESS_LEVEL_PLAYER = None ->
        handled = refused).
Proof.
  intros request handled refused Hq Hauto. subst handled refused.
  auth_login. fold request. rewrite Hq, Hauto.
  split; [|split].
  - intros hashed accountId Hh Hi. now rewrite Hh, Hi.
  - intros Hh. now rewrite Hh.
  - intros hashed Hh Hi. now rewrite Hh, Hi.
Qed.

(** X16: an auth-login request that finds no account while auto-create is
    disabled is answered with login-fail (wrong user or password) and
    increments failed-logins; one for which the account store fails is
    answered with login-fail (system error) and changes no counter.  In both
    cases the client's account is left alone. *)
Theorem login_without_account (ext : loginserver.externals) (data : list byte)
  (h : loginserver.handling) :
  let request := NewRequestAuthLogin data in
  let handled :=
    loginserver.handle_packet ACCESS_LEVEL_PLAYER ServerID_type
      NewRequestAuthLogin NewRequestPlay NewRequestServerList ext 0 data h in
  (loginserver.QueryRow ext (loginserver.ral_Username request)
     = loginserver.ErrNoRows ->
   loginserver.AutoCreate (loginserver.config (loginserver.server h)) = false ->
   handled
   = Some (loginserver.send
             (loginserver.NewLoginFailPacket
                loginserver.REASON_USER_OR_PASS_WRONG)
             (loginserver.set_status loginserver.incr_failedLogins h)))
  /\ (loginserver.QueryRow ext (loginserver.ral_Username request)
        = loginserver.QueryError ->
      handled
      = Some (loginserver.send
                (loginserver.NewLoginFailPacket
                   loginserver.REASON_SYSTEM_ERROR) h)).
Proof.
  intros request handled. subst handled. auth_login. fold request.
  split.
  - intros Hq Hauto. now rewrite Hq, Hauto.
  - intros Hq. now rewrite Hq.
Qed.

(** X17: an auth-login request for a stored account binds that account to
    the client before the password is compared, so in all three outcomes.
    A wrong password: login-fail (wrong user or password), failed-logins
    incremented.  The right password and an access level of at least the
    player level: login-ok with the session identifier, successful-logins
    incremented.  The right password and a lower access level: login-fail
    (access failed), failed-logins incremented. *)
Theorem login_with_stored_account (ext : loginserver.externals)
  (data : list byte) (h : loginserver.handling)
  (stored : loginserver.Account) :
  let request := NewRequestAuthLogin data in
  let handled :=
    loginserver.handle_packet ACCESS_LEVEL_PLAYER ServerID_type
      NewRequestAuthLogin NewRequestPlay NewRequestServerList ext 0 data h in
  let bound := loginserver.set_account stored h in
  let password_ok :=
    loginserver.CompareHashAndPassword ext (loginserver.Password stored)
      (loginserver.ral_Password request) in
  loginserver.QueryRow ext (loginserver.ral_Username request)
    = loginserver.Row stored ->
  (password_ok = false ->
   handled
   = Some (loginserver.send
             (loginserver.NewLoginFailPacket
                loginserver.REASON_USER_OR_PASS_WRONG)
             (loginserver.set_status loginserver.incr_failedLogins bound)))
  /\ (password_ok = true ->
      ACCESS_LEVEL_PLAYER <= loginserver.AccessLevel stored ->
      handled
      = Some (loginserver.send
                (loginserver.NewLoginOkPacket
                   (loginserver.SessionID (loginserver.client h)))
                (loginserver.set_status loginserver.incr_successfulLogins
                   bound)))
  /\ (password_ok = true ->
      loginserver.AccessLevel stored < ACCESS_LEVEL_PLAYER ->
      handled
      = Some (loginserver.send
                (loginserver.NewLoginFailPacket
                   loginserver.REASON_ACCESS_FAILED)
                (loginserver.set_status loginserver.incr_failedLogins bound))).
Proof.
  intros request handled bound password_ok Hq.
  subst handled bound password_ok. auth_login. fold request. rewrite Hq.
  cbn [loginserver.set_account loginserver.client loginserver.account
       loginserver.Password loginserver.AccessLevel loginserver.SessionID].
  split; [|split].
  - intros Hp. now rewrite Hp.
  - intros Hp Hl. rewrite Hp. cbn [negb].
    destruct (Z.geb_spec (loginserver.AccessLevel stored) ACCESS_LEVEL_PLAYER);
      [reflexivity | lia].
  - intros Hp Hl. rewrite Hp. cbn [negb].
    destruct (Z.geb_spec (loginserver.AccessLevel stored) ACCESS_LEVEL_PLAYER);
      [lia | reflexivity].
Qed.

Lemma play_request_prefix_matches (ext : loginserver.externals)
  (data : list byte) (h : loginserver.handling) :
  loginserver.play_condition ACCESS_LEVEL_PLAYER ServerID_type
    (NewRequestPlay data) h = Some true ->
  (8 <= List.length (loginserver.SessionID (loginserver.client h)))%nat ->
  loginserver.rp_SessionID (NewRequestPlay data)
    = firstn 8 (loginserver.SessionID (loginserver.client h)) ->
  loginserver.handle_packet ACCESS_LEVEL_PLAYER ServerID_type
    NewRequestAuthLogin NewRequestPlay NewRequestServerList ext 2 data h
  = Some (loginserver.send loginserver.NewPlayOkPacket h).
Proof.
  intros Hcond Hlen Hsid.
  unfold loginserver.handle_packet. cbn [Z.eqb Pos.eqb].
  unfold loginserver.handle_RequestPlay. rewrite Hcond.
  unfold loginserver.prefix.
  destruct (Nat.leb_spec 8
              (List.length (loginserver.SessionID (loginserver.client h))));
    [|lia].
  rewrite Hsid.
  destruct (packets.bytes_Equal _ _) eqn:E; [reflexivity|].
  apply bytes_Equal_false in E. congruence.
Qed.

(** X18: a play request that passes the validity condition and carries the
    first 8 bytes of the client's session identifier is answered with
    play-ok; no counter, account or registry entry changes.  Nothing else is
    asked of the client: whether a login succeeded before plays no part. *)
Theorem play_request_granted (ext : loginserver.externals)
  (data : list byte) (h : loginserver.handling) :
  loginserver.play_condition ACCESS_LEVEL_PLAYER ServerID_type
    (NewRequestPlay data) h = Some true ->
  (8 <= List.length (loginserver.SessionID (loginserver.client h)))%nat ->
  loginserver.rp_SessionID (NewRequestPlay data)
    = firstn 8 (loginserver.SessionID (loginserver.client h)) ->
  loginserver.handle_packet ACCESS_LEVEL_PLAYER ServerID_type
    NewRequestAuthLogin NewRequestPlay NewRequestServerList ext 2 data h
  = Some (loginserver.mkHandling (loginserver.server h) (loginserver.client h)
            (loginserver.trace h ++ [loginserver.Send loginserver.NewPlayOkPacket])).
Proof.
  intros Hcond Hlen Hsid.
  now rewrite play_request_prefix_matches.
Qed.

(** X19: a failed login still decides what the client may play.  After an
    auth-login request with a wrong password for a stored account whose
    access level is above the player level, a play request for a testing
    realm with the right session prefix is answered with play-ok, while the
    same play request from a client whose bound account is at or below the
    player level is refused with play-fail and counted as a hack
    attempt. *)
Theorem failed_login_opens_testing_realm (ext : loginserver.externals)
  (login play : list byte) (h : loginserver.handling)
  (stored : loginserver.Account) (gs : loginserver.GameServer) :
  let id := loginserver.rp_ServerID (NewRequestPlay play) in
  loginserver.QueryRow ext
    (loginserver.ral_Username (NewRequestAuthLogin login))
    = loginserver.Row stored ->
  loginserver.CompareHashAndPassword ext (loginserver.Password stored)
    (loginserver.ral_Password (NewRequestAuthLogin login)) = false ->
  ACCESS_LEVEL_PLAYER < loginserver.AccessLevel stored ->
  1 <= id <= 127 ->
  nth_error (loginserver.GameServers
               (loginserver.config (loginserver.server h)))
    (Z.to_nat (id - 1)) = Some gs ->
  loginserver.Options_Testing gs = true ->
  (8 <= List.length (loginserver.SessionID (loginserver.client h)))%nat ->
  loginserver.rp_SessionID (NewRequestPlay play)
    = firstn 8 (loginserver.SessionID (loginserver.client h)) ->
  (exists h2 : loginserver.handling,
      loginserver.receive_loop ACCESS_LEVEL_PLAYER ServerID_type
        NewRequestAuthLogin NewRequestPlay NewRequestServerList
        [(ext, loginserver.Packet 0 login); (ext, loginserver.Packet 2 play)] h
      = loginserver.Open h2
      /\ loginserver.trace h2
         = loginserver.trace h
             ++ [loginserver.Send
                   (loginserver.NewLoginFailPacket
                      loginserver.REASON_USER_OR_PASS_WRONG);
                 loginserver.Send loginserver.NewPlayOkPacket]
      /\ loginserver.account (loginserver.client h2) = stored
      /\ loginserver.hackAttempts (loginserver.status (loginserver.server h2))
         = loginserver.hackAttempts
             (loginserver.status (loginserver.server h)))
  /\ (loginserver.AccessLevel (loginserver.account (loginserver.client h))
      <= ACCESS_LEVEL_PLAYER ->
      loginserver.handle_packet ACCESS_LEVEL_PLAYER ServerID_type
        NewRequestAuthLogin NewRequestPlay NewRequestServerList ext 2 play h
      = Some (loginserver.send
                (loginserver.NewPlayFailPacket
                   loginserver.REASON_ACCESS_FAILED)
                (loginserver.set_status loginserver.incr_hackAttempts h))).
Proof.
  intros id Hq Hp Hlevel Hid Hnth Htest Hlen Hsid. split.
  - set (h1 := loginserver.send
                 (loginserver.NewLoginFailPacket
                    loginserver.REASON_USER_OR_PASS_WRONG)
                 (loginserver.set_status loginserver.incr_failedLogins
                    (loginserver.set_account stored h))).
    assert (E1 : loginserver.handle_packet ACCESS_LEVEL_PLAYER ServerID_type
                   NewRequestAuthLogin NewRequestPlay NewRequestServerList
                   ext 0 login h = Some h1).
    { auth_login. rewrite Hq.
      cbn [loginserver.set_account loginserver.client loginserver.account
           loginserver.Password].
      now rewrite Hp. }
    assert (Hcond : loginserver.play_condition ACCESS_LEVEL_PLAYER
                      ServerID_type (NewRequestPlay play) h1 = Some true).
    { rewrite (play_condition_in_range ACCESS_LEVEL_PLAYER ServerID_type
                 (NewRequestPlay play) h1 gs Hid Hnth).
      rewrite Htest. cbn [negb orb]. subst h1.
      cbn [loginserver.send loginserver.set_status loginserver.set_account
           loginserver.client loginserver.account loginserver.AccessLevel].
      destruct (Z.gtb_spec (loginserver.AccessLevel stored)
                  ACCESS_LEVEL_PLAYER); [reflexivity | lia]. }
    exists (loginserver.send loginserver.NewPlayOkPacket h1).
    split.
    + cbn [loginserver.receive_loop]. rewrite E1.
      rewrite (play_request_prefix_matches ext play h1 Hcond Hlen Hsid).
      reflexivity.
    + subst h1. cbn. rewrite <- app_assoc. repeat split.
  - intros Hlow. apply play_request_invalid_target.
    rewrite (play_condition_in_range ACCESS_LEVEL_PLAYER ServerID_type
               (NewRequestPlay play) h gs Hid Hnth).
    rewrite Htest. cbn [negb orb].
    destruct (Z.gtb_spec
                (loginserver.AccessLevel
                   (loginserver.account (loginserver.client h)))
                ACCESS_LEVEL_PLAYER); [lia | reflexivity].
Qed.

(** X20: the server-list request.  With the first 8 bytes of the client's
    session identifier it is answered with the configured game servers and
    the client's remote address, and nothing is counted; with any other
    prefix it is answered with login-fail (access failed) and counted as a
    hack attempt. *)
Theorem server_list_request (ext : loginserver.externals) (data : list byte)
  (h : loginserver.handling) (conn : loginserver.Conn) :
  let handled :=
    loginserver.handle_packet ACCESS_LEVEL_PLAYER ServerID_type
      NewRequestAuthLogin NewRequestPlay NewRequestServerList ext 5 data h in
  let own := firstn 8 (loginserver.SessionID (loginserver.client h)) in
  (8 <= List.length (loginserver.SessionID (loginserver.client h)))%nat ->
  loginserver.Socket (loginserver.client h) = Some conn ->
  (loginserver.rsl_SessionID (NewRequestServerList data) = own ->
   handled
   = Some (loginserver.send
             (loginserver.NewServerListPacket
                (loginserver.GameServers
                   (loginserver.config (loginserver.server h)))
                (loginserver.RemoteAddr ext)) h))
  /\ (loginserver.rsl_SessionID (NewRequestServerList data) <> own ->
      handled
      = Some (loginserver.send
                (loginserver.NewLoginFailPacket
                   loginserver.REASON_ACCESS_FAILED)
                (loginserver.set_status loginserver.incr_hackAttempts h))).
Proof.
  intros handled own Hlen Hsock. subst handled own.
  unfold loginserver.handle_packet. cbn [Z.eqb Pos.eqb].
  unfold loginserver.handle_RequestServerList, loginserver.prefix.
  destruct (Nat.leb_spec 8
              (List.length (loginserver.SessionID (loginserver.client h))));
    [|lia].
  split; intros Hsid.
  - rewrite Hsid, Hsock.
    destruct (packets.bytes_Equal _ _) eqn:E; [reflexivity|].
    apply bytes_Equal_false in E. congruence.
  - destruct (packets.bytes_Equal _ _) eqn:E; [|reflexivity].
    apply bytes_Equal_true in E. congruence.
Qed.

End LoginRequests.

Section HandlerInvariants.

Variable ACCESS_LEVEL_PLAYER : Z.
Variable ServerID_type : loginserver.int_type.
Variable NewRequestAuthLogin : list byte -> loginserver.RequestAuthLogin.
Variable NewRequestPlay : list byte -> loginserver.RequestPlay.
Variable NewRequestServerList : list byte -> loginserver.RequestServerList.

(** Every way through the [switch], one goal for each. *)
Ltac handler_branches :=
  unfold loginserver.handle_packet, loginserver.handle_RequestAuthLogin,
    loginserver.handle_RequestPlay, loginserver.handle_RequestServerList;
  repeat match goal with
         | |- context [match ?x with _ => _ end] =>
             lazymatch x with
             | context [match _ with _ => _ end] => fail
             | _ => destruct x eqn:?; cbv beta iota
             end
         end;
  intros Hhandled; inversion Hhandled; subst; clear Hhandled.

Ltac one_of_these :=
  first [ reflexivity
        | left; reflexivity
        | right; one_of_these ].

(** X21: whenever handling a packet returns (it can panic instead, as for a
    play request for server 0), it has closed no connection, has added or
    removed no entry of the registry and changed no entry's socket or
    session identifier, and has left the configuration, the client's socket
    and its session identifier as they were.  For the opcodes 0, 2 and 5
    exactly one packet has been sent; for any other opcode nothing has been
    sent and nothing has changed at all. *)
Theorem handling_sends_one_packet_and_keeps_the_connection
  (ext : loginserver.externals) (opcode : Z) (data : list byte)
  (h h' : loginserver.handling) :
  loginserver.handle_packet ACCESS_LEVEL_PLAYER ServerID_type
    NewRequestAuthLogin NewRequestPlay NewRequestServerList ext opcode data h
  = Some h' ->
  (forall c, In (loginserver.Close c) (loginserver.trace h') ->
             In (loginserver.Close c) (loginserver.trace h))
  /\ map (fun it => (loginserver.Socket it, loginserver.SessionID it))
       (loginserver.clients (loginserver.server h'))
     = map (fun it => (loginserver.Socket it, loginserver.SessionID it))
         (loginserver.clients (loginserver.server h))
  /\ loginserver.config (loginserver.server h')
     = loginserver.config (loginserver.server h)
  /\ loginserver.Socket (loginserver.client h')
     = loginserver.Socket (loginserver.client h)
  /\ loginserver.SessionID (loginserver.client h')
     = loginserver.SessionID (loginserver.client h)
  /\ (opcode = 0 \/ opcode = 2 \/ opcode = 5 ->
      exists buffer,
        loginserver.trace h' = loginserver.trace h ++ [loginserver.Send buffer])
  /\ (opcode <> 0 -> opcode <> 2 -> opcode <> 5 -> h' = h).
Proof.
  handler_branches;
    repeat match goal with
           | H : (_ =? _) = true |- _ => apply Z.eqb_eq in H
           | H : (_ =? _) = false |- _ => apply Z.eqb_neq in H
           end;
    (split;
     [ let Hin := fresh "Hin" in
       intros ? Hin; cbn in Hin;
       first [ exact Hin
             | apply in_app_or in Hin; destruct Hin as [Hin|[Hin|[]]];
               [exact Hin | discriminate Hin] ]
     |];
     split; [reflexivity|]; split; [reflexivity|];
     split; [first [reflexivity | assumption]|];
     split; [reflexivity|]; split;
     [ intros; first [ eexists; reflexivity | lia ]
     | intros; first [ reflexivity | lia ] ]).
Qed.

(** X22: handling a packet changes at most one of the five counters: the
    status afterwards is the status before, or the status before with
    exactly one counter incremented. *)
Theorem handling_changes_at_most_one_counter
  (ext : loginserver.externals) (opcode : Z) (data : list byte)
  (h h' : loginserver.handling) :
  loginserver.handle_packet ACCESS_LEVEL_PLAYER ServerID_type
    NewRequestAuthLogin NewRequestPlay NewRequestServerList ext opcode data h
  = Some h' ->
  let st := loginserver.status (loginserver.server h) in
  let st' := loginserver.status (loginserver.server h') in
  st' = st
  \/ st' = loginserver.incr_successfulAccountCreation st
  \/ st' = loginserver.incr_failedAccountCreation st
  \/ st' = loginserver.incr_successfulLogins st
  \/ st' = loginserver.incr_failedLogins st
  \/ st' = loginserver.incr_hackAttempts st.
Proof.
  handler_branches; cbv zeta; one_of_these.
Qed.

End HandlerInvariants.

(** ** Eviction *)

Lemma filter_all_true {A : Type} (f : A -> bool) (l : list A) :
  (forall a, In a l -> f a = true) -> filter f l = l.
Proof.
  induction l as [|a l IH]; intros H; [reflexivity|].
  cbn [filter]. rewrite (H a) by now left.
  f_equal. apply IH. intros b Hb. apply H. now right.
Qed.

(** The registry without the entries of the session identifier [sid]. *)
Lemma kickClient_range_unique (sid : list byte)
  (cs : list loginserver.Client) :
  NoDup (map loginserver.SessionID cs) ->
  loginserver.kickClient_range cs 0 cs sid
  = filter (fun it => negb (packets.bytes_Equal (loginserver.SessionID it) sid))
      cs.
Proof.
  intros Hnd.
  assert (Hkeep : forall l : list loginserver.Client,
             (forall it, In it l -> loginserver.SessionID it <> sid) ->
             filter (fun it => negb (packets.bytes_Equal
                                       (loginserver.SessionID it) sid)) l = l).
  { intros l Hl. apply filter_all_true. intros it Hin.
    apply negb_true_iff, bytes_Equal_false. now apply Hl. }
  destruct (kickClient_range_spec sid cs [])
    as [[Hno Hr]|(mid & it & after & Hs & Hid & Hmid & Hr)];
    cbn [app List.length] in Hr; rewrite Hr.
  - symmetry. now apply Hkeep.
  - subst cs. rewrite filter_app. cbn [filter].
    assert (E : packets.bytes_Equal (loginserver.SessionID it) sid = true)
      by now apply bytes_Equal_true.
    rewrite E. cbn [negb].
    rewrite (Hkeep mid Hmid). f_equal. symmetry. apply Hkeep.
    intros it' Hin Hsid'.
    rewrite map_app in Hnd. apply NoDup_remove_2 in Hnd.
    apply Hnd. apply in_or_app. right. cbn [map].
    rewrite Hid, <- Hsid'. now apply in_map.
Qed.

(** X23: in a registry with distinct session identifiers, [kickClient]
    leaves exactly the entries with other session identifiers, in their
    order; kicking the same client again leaves that registry as it is and
    closes the socket a second time. *)
Theorem kickClient_twice (c : loginserver.Client) (conn : loginserver.Conn)
  (l : loginserver.LoginServer) (tr : list loginserver.event) :
  loginserver.Socket c = Some conn ->
  NoDup (map loginserver.SessionID (loginserver.clients l)) ->
  let others :=
    filter (fun it => negb (packets.bytes_Equal (loginserver.SessionID it)
                              (loginserver.SessionID c)))
      (loginserver.clients l) in
  let l1 := loginserver.mkLoginServer others (loginserver.config l)
              (loginserver.status l) in
  loginserver.kickClient c l tr
  = Some (l1, tr ++ [loginserver.Close (Some conn)])
  /\ loginserver.kickClient c l1 (tr ++ [loginserver.Close (Some conn)])
     = Some (l1, tr ++ [loginserver.Close (Some conn);
                        loginserver.Close (Some conn)])
  /\ forall it, In it others ->
                loginserver.SessionID it <> loginserver.SessionID c.
Proof.
  intros Hsock Hnd others l1.
  assert (Hothers : forall it, In it others ->
                               loginserver.SessionID it <> loginserver.SessionID c).
  { intros it Hin. apply filter_In in Hin. destruct Hin as [_ Hf].
    now apply negb_true_iff, bytes_Equal_false in Hf. }
  unfold loginserver.kickClient. rewrite Hsock.
  rewrite (kickClient_range_unique _ _ Hnd). fold others.
  split; [reflexivity|]. split; [|exact Hothers].
  subst l1. cbn [loginserver.clients loginserver.config loginserver.status].
  destruct (kickClient_range_spec (loginserver.SessionID c) others [])
    as [[_ Hr]|(mid & it & after & Hs & Hid & _ & _)];
    cbn [app List.length] in *.
  - rewrite Hr, <- app_assoc. reflexivity.
  - exfalso. apply (Hothers it); [|exact Hid].
    rewrite Hs. apply in_or_app. right. now left.
Qed.

Lemma kickClient_twice_witness :
  let other := loginserver.mkClient (Some 1%nat) [x01]
                 (loginserver.mkAccount 0 [] [] 0) in
  let l := loginserver.mkLoginServer [other; samples.sample_client]
             (loginserver.mkConfig true []) samples.zero_status in
  let l1 := loginserver.mkLoginServer [other]
              (loginserver.mkConfig true []) samples.zero_status in
  loginserver.kickClient samples.sample_client l []
  = Some (l1, [loginserver.Close (Some 7%nat)])
  /\ loginserver.kickClient samples.sample_client l1
       [loginserver.Close (Some 7%nat)]
     = Some (l1, [loginserver.Close (Some 7%nat);
                  loginserver.Close (Some 7%nat)]).
Proof.
  cbv zeta.
  destruct (kickClient_twice samples.sample_client 7%nat
              (loginserver.mkLoginServer
                 [loginserver.mkClient (Some 1%nat) [x01]
                    (loginserver.mkAccount 0 [] [] 0);
                  samples.sample_client]
                 (loginserver.mkConfig true []) samples.zero_status) [])
    as (H1 & H2 & _).
  - reflexivity.
  - cbn. repeat constructor; cbn; intuition discriminate.
  - split; [exact H1 | exact H2].
Defined.

Lemma kickClient_range_last (sid : list byte) (c : loginserver.Client)
  (cs : list loginserver.Client) :
  loginserver.SessionID c = sid ->
  (forall it, In it cs -> loginserver.SessionID it <> sid) ->
  forall before : list loginserver.Client,
    loginserver.kickClient_range (before ++ cs ++ [c]) (List.length before)
      (cs ++ [c]) sid
    = before ++ cs.
Proof.
  intros Hc. induction cs as [|a cs IH]; intros Hcs before.
  - cbn [app loginserver.kickClient_range].
    assert (E : packets.bytes_Equal (loginserver.SessionID c) sid = true)
      by now apply bytes_Equal_true.
    rewrite E. rewrite (shift_down_removes before c []). reflexivity.
  - cbn [app loginserver.kickClient_range].
    assert (E : packets.bytes_Equal (loginserver.SessionID a) sid = false)
      by (apply bytes_Equal_false, Hcs; now left).
    rewrite E.
    replace (before ++ a :: cs ++ [c]) with ((before ++ [a]) ++ cs ++ [c])
      by (now rewrite <- app_assoc).
    replace (List.length before + 1)%nat with (List.length (before ++ [a]))
      by (rewrite length_app; reflexivity).
    rewrite IH by (intros it Hin; apply Hcs; now right).
    now rewrite <- app_assoc.
Qed.

Section Connections.

Variable ACCESS_LEVEL_PLAYER : Z.
Variable ServerID_type : loginserver.int_type.
Variable NewRequestAuthLogin : list byte -> loginserver.RequestAuthLogin.
Variable NewRequestPlay : list byte -> loginserver.RequestPlay.
Variable NewRequestServerList : list byte -> loginserver.RequestServerList.

(** X24: a connection whose init packet cannot be sent, or whose first
    [Receive] fails, is closed and evicted at once: the init packet is the
    only packet sent, the socket is closed, no later input is looked at, no
    counter changes, and in a registry with distinct session identifiers no
    entry with the client's session identifier is left. *)
Theorem failed_connection_is_evicted
  (inputs : list (loginserver.externals * loginserver.received))
  (ext : loginserver.externals) (h : loginserver.handling)
  (conn : loginserver.Conn) :
  loginserver.Socket (loginserver.client h) = Some conn ->
  NoDup (map loginserver.SessionID
           (loginserver.clients (loginserver.server h))) ->
  let evicted :=
    loginserver.Kicked
      (loginserver.mkHandling
         (loginserver.mkLoginServer
            (filter (fun it =>
                       negb (packets.bytes_Equal (loginserver.SessionID it)
                               (loginserver.SessionID (loginserver.client h))))
               (loginserver.clients (loginserver.server h)))
            (loginserver.config (loginserver.server h))
            (loginserver.status (loginserver.server h)))
         (loginserver.client h)
         (loginserver.trace h
            ++ [loginserver.Send loginserver.NewInitPacket;
                loginserver.Close (Some conn)])) in
  loginserver.handleClientPackets ACCESS_LEVEL_PLAYER ServerID_type
    NewRequestAuthLogin NewRequestPlay NewRequestServerList false inputs h
  = evicted
  /\ loginserver.handleClientPackets ACCESS_LEVEL_PLAYER ServerID_type
       NewRequestAuthLogin NewRequestPlay NewRequestServerList true
       ((ext, loginserver.ReceiveError) :: inputs) h
     = evicted.
Proof.
  intros Hsock Hnd evicted.
  assert (E : loginserver.kicked (loginserver.send loginserver.NewInitPacket h)
              = evicted).
  { unfold loginserver.kicked, loginserver.kickClient.
    cbn [loginserver.send loginserver.client loginserver.server
         loginserver.trace].
    rewrite Hsock, (kickClient_range_unique _ _ Hnd), <- app_assoc.
    reflexivity. }
  split; exact E.
Qed.

(** X25: the accept loop registers every client, also when [Accept] failed.
    A client accepted with a session identifier not yet in the registry and
    whose connection then fails at once leaves the registry as it was before
    the accept.  A client whose [Accept] failed gets no handler, so nothing
    evicts it: it stays in the registry with a nil socket, and evicting it
    would panic. *)
Theorem accepted_clients_and_the_registry (newClient : loginserver.Client)
  (conn : loginserver.Conn) (l : loginserver.LoginServer)
  (inputs : list (loginserver.externals * loginserver.received)) :
  (forall it, In it (loginserver.clients l) ->
              loginserver.SessionID it <> loginserver.SessionID newClient) ->
  (let '(l1, started) := loginserver.accept_client newClient (Some conn) l in
   exists client h',
     started = Some client
     /\ loginserver.clients l1 = loginserver.clients l ++ [client]
     /\ loginserver.handleClientPackets ACCESS_LEVEL_PLAYER ServerID_type
          NewRequestAuthLogin NewRequestPlay NewRequestServerList false inputs
          (loginserver.mkHandling l1 client [])
        = loginserver.Kicked h'
     /\ loginserver.server h' = l)
  /\ (let '(l1, started) := loginserver.accept_client newClient None l in
      exists client,
        started = None
        /\ loginserver.clients l1 = loginserver.clients l ++ [client]
        /\ loginserver.Socket client = None
        /\ forall tr, loginserver.kickClient client l1 tr = None).
Proof.
  intros Hfresh. split.
  - cbn [loginserver.accept_client]. eexists. eexists.
    split; [reflexivity|]. split; [reflexivity|].
    unfold loginserver.handleClientPackets, loginserver.kicked,
      loginserver.kickClient.
    cbn [loginserver.send loginserver.client loginserver.server
         loginserver.trace loginserver.Socket loginserver.SessionID
         loginserver.clients loginserver.config loginserver.status].
    pose proof (kickClient_range_last (loginserver.SessionID newClient)
                  (loginserver.mkClient (Some conn)
                     (loginserver.SessionID newClient)
                     (loginserver.account newClient))
                  (loginserver.clients l) eq_refl Hfresh []) as E.
    cbn [app List.length] in E. rewrite E.
    split; [reflexivity|].
    cbn [loginserver.server]. destruct l; reflexivity.
  - cbn [loginserver.accept_client]. eexists.
    split; [reflexivity|]. split; [reflexivity|]. split; reflexivity.
Qed.

End Connections.

(** ** The further properties on the sample server *)

(** An unknown user is provisioned: account 1 at the player level. *)
Lemma auto_provisioning_witness :
  let h := samples.sample_handling samples.zero_status in
  loginserver.handle_packet 0 loginserver.Tuint8
    samples.sample_NewRequestAuthLogin samples.sample_NewRequestPlay
    samples.sample_NewRequestServerList samples.sample_externals 0 [x61] h
  = Some (loginserver.send
            (loginserver.NewLoginOkPacket
               (loginserver.SessionID samples.sample_client))
            (loginserver.set_status loginserver.incr_successfulAccountCreation
               (loginserver.set_account (loginserver.mkAccount 1 [x61] [] 0) h))).
Proof.
  destruct (auto_provisioning 0 loginserver.Tuint8
              samples.sample_NewRequestAuthLogin samples.sample_NewRequestPlay
              samples.sample_NewRequestServerList samples.sample_externals
              [x61] (samples.sample_handling samples.zero_status)
              eq_refl eq_refl) as [Hok _].
  exact (Hok [] 1 eq_refl eq_refl).
Defined.

(** Without auto-create the unknown user is refused. *)
Lemma login_without_account_witness :
  loginserver.handle_packet 0 loginserver.Tuint8
    samples.sample_NewRequestAuthLogin samples.sample_NewRequestPlay
    samples.sample_NewRequestServerList samples.sample_externals 0 [x61]
    samples.sample_testing_handling
  = Some (loginserver.send
            (loginserver.NewLoginFailPacket
               loginserver.REASON_USER_OR_PASS_WRONG)
            (loginserver.set_status loginserver.incr_failedLogins
               samples.sample_testing_handling))
  /\ loginserver.handle_packet 0 loginserver.Tuint8
       samples.sample_NewRequestAuthLogin samples.sample_NewRequestPlay
       samples.sample_NewRequestServerList samples.externals_failing 0 [x61]
       samples.sample_testing_handling
     = Some (loginserver.send
               (loginserver.NewLoginFailPacket loginserver.REASON_SYSTEM_ERROR)
               samples.sample_testing_handling).
Proof.
  split.
  - destruct (login_without_account 0 loginserver.Tuint8
                samples.sample_NewRequestAuthLogin samples.sample_NewRequestPlay
                samples.sample_NewRequestServerList samples.sample_externals
                [x61] samples.sample_testing_handling) as [Hnone _].
    exact (Hnone eq_refl eq_refl).
  - destruct (login_without_account 0 loginserver.Tuint8
                samples.sample_NewRequestAuthLogin samples.sample_NewRequestPlay
                samples.sample_NewRequestServerList samples.externals_failing
                [x61] samples.sample_testing_handling) as [_ Herr].
    exact (Herr eq_refl).
Defined.

(** The administrator's account with an empty password: refused, and
    bound. *)
Lemma login_with_stored_account_witness :
  let h := samples.sample_handling samples.zero_status in
  loginserver.handle_packet 0 loginserver.Tuint8
    samples.sample_NewRequestAuthLogin samples.sample_NewRequestPlay
    samples.sample_NewRequestServerList
    (samples.externals_with_account samples.sample_admin) 0 [x61] h
  = Some (loginserver.send
            (loginserver.NewLoginFailPacket
               loginserver.REASON_USER_OR_PASS_WRONG)
            (loginserver.set_status loginserver.incr_failedLogins
               (loginserver.set_account samples.sample_admin h))).
Proof.
  destruct (login_with_stored_account 0 loginserver.Tuint8
              samples.sample_NewRequestAuthLogin samples.sample_NewRequestPlay
              samples.sample_NewRequestServerList
              (samples.externals_with_account samples.sample_admin)
              [x61] (samples.sample_handling samples.zero_status)
              samples.sample_admin eq_refl) as [Hwrong _].
  exact (Hwrong eq_refl).
Defined.

(** A play request for realm 1 with the client's own prefix, without any
    login before it. *)
Lemma play_request_granted_witness :
  let h := samples.sample_handling samples.zero_status in
  loginserver.handle_packet 0 loginserver.Tuint8
    samples.sample_NewRequestAuthLogin samples.sample_NewRequestPlay
    samples.sample_NewRequestServerList samples.sample_externals 2
    (samples.play_request [x01; x02; x03; x04; x05; x06; x07; x08] x01) h
  = Some (loginserver.mkHandling (loginserver.server h) (loginserver.client h)
            [loginserver.Send loginserver.NewPlayOkPacket]).
Proof.
  exact (play_request_granted 0 loginserver.Tuint8
           samples.sample_NewRequestAuthLogin samples.sample_NewRequestPlay
           samples.sample_NewRequestServerList samples.sample_externals
           (samples.play_request [x01; x02; x03; x04; x05; x06; x07; x08] x01)
           (samples.sample_handling samples.zero_status)
           eq_refl ltac:(cbn; lia) eq_refl).
Defined.

(** On the server whose only realm is a testing realm, the client at the
    player level is refused, and is let in after a failed login as the
    administrator. *)
Lemma failed_login_opens_testing_realm_witness :
  let ext := samples.externals_with_account samples.sample_admin in
  let play :=
    samples.play_request [x01; x02; x03; x04; x05; x06; x07; x08] x01 in
  let h := samples.sample_testing_handling in
  (exists h2 : loginserver.handling,
      loginserver.receive_loop 0 loginserver.Tuint8
        samples.sample_NewRequestAuthLogin samples.sample_NewRequestPlay
        samples.sample_NewRequestServerList
        [(ext, loginserver.Packet 0 [x61]); (ext, loginserver.Packet 2 play)] h
      = loginserver.Open h2
      /\ loginserver.trace h2
         = [loginserver.Send
              (loginserver.NewLoginFailPacket
                 loginserver.REASON_USER_OR_PASS_WRONG);
            loginserver.Send loginserver.NewPlayOkPacket])
  /\ loginserver.handle_packet 0 loginserver.Tuint8
       samples.sample_NewRequestAuthLogin samples.sample_NewRequestPlay
       samples.sample_NewRequestServerList ext 2 play h
     = Some (loginserver.send
               (loginserver.NewPlayFailPacket loginserver.REASON_ACCESS_FAILED)
               (loginserver.set_status loginserver.incr_hackAttempts h)).
Proof.
  cbv zeta.
  destruct (failed_login_opens_testing_realm 0 loginserver.Tuint8
              samples.sample_NewRequestAuthLogin samples.sample_NewRequestPlay
              samples.sample_NewRequestServerList
              (samples.externals_with_account samples.sample_admin) [x61]
              (samples.play_request [x01; x02; x03; x04; x05; x06; x07; x08] x01)
              samples.sample_testing_handling samples.sample_admin
              (loginserver.mkGameServer true))
    as [(h2 & Hrun & Htrace & _) Hrefused].
  - reflexivity.
  - reflexivity.
  - cbn. lia.
  - vm_compute. split; discriminate.
  - reflexivity.
  - reflexivity.
  - cbn. lia.
  - reflexivity.
  - split.
    + exists h2. split; [exact Hrun | exact Htrace].
    + apply Hrefused. cbn. lia.
Defined.

(** The server list for the client's own prefix, the failure for another. *)
Lemma server_list_request_witness :
  let h := samples.sample_handling samples.zero_status in
  loginserver.handle_packet 0 loginserver.Tuint8
    samples.sample_NewRequestAuthLogin samples.sample_NewRequestPlay
    samples.sample_NewRequestServerList samples.sample_externals 5
    [x01; x02; x03; x04; x05; x06; x07; x08] h
  = Some (loginserver.send
            (loginserver.NewServerListPacket
               [loginserver.mkGameServer false] []) h)
  /\ loginserver.handle_packet 0 loginserver.Tuint8
       samples.sample_NewRequestAuthLogin samples.sample_NewRequestPlay
       samples.sample_NewRequestServerList samples.sample_externals 5
       [xff; xff; xff; xff; xff; xff; xff; xff] h
     = Some (loginserver.send
               (loginserver.NewLoginFailPacket loginserver.REASON_ACCESS_FAILED)
               (loginserver.set_status loginserver.incr_hackAttempts h)).
Proof.
  cbv zeta. split.
  - destruct (server_list_request 0 loginserver.Tuint8
                samples.sample_NewRequestAuthLogin samples.sample_NewRequestPlay
                samples.sample_NewRequestServerList samples.sample_externals
                [x01; x02; x03; x04; x05; x06; x07; x08]
                (samples.sample_handling samples.zero_status) 7%nat
                ltac:(cbn; lia) eq_refl) as [Hown _].
    exact (Hown eq_refl).
  - destruct (server_list_request 0 loginserver.Tuint8
                samples.sample_NewRequestAuthLogin samples.sample_NewRequestPlay
                samples.sample_NewRequestServerList samples.sample_externals
                [xff; xff; xff; xff; xff; xff; xff; xff]
                (samples.sample_handling samples.zero_status) 7%nat
                ltac:(cbn; lia) eq_refl) as [_ Hother].
    apply Hother. cbn. discriminate.
Defined.

(** An unknown opcode changes nothing; a login sends one packet, closes
    nothing and keeps the entry of the registry. *)
Lemma handling_sends_one_packet_and_keeps_the_connection_witness :
  let h := samples.sample_handling samples.zero_status in
  (forall h', loginserver.handle_packet 0 loginserver.Tuint8
                samples.sample_NewRequestAuthLogin samples.sample_NewRequestPlay
                samples.sample_NewRequestServerList samples.sample_externals 9
                [] h = Some h' -> h' = h)
  /\ exists h' buffer,
       loginserver.handle_packet 0 loginserver.Tuint8
         samples.sample_NewRequestAuthLogin samples.sample_NewRequestPlay
         samples.sample_NewRequestServerList samples.sample_externals 0
         [x61] h = Some h'
       /\ loginserver.trace h' = [loginserver.Send buffer]
       /\ (forall c, ~ In (loginserver.Close c) (loginserver.trace h'))
       /\ map (fun it => (loginserver.Socket it, loginserver.SessionID it))
            (loginserver.clients (loginserver.server h'))
          = [(loginserver.Socket samples.sample_client,
              loginserver.SessionID samples.sample_client)].
Proof.
  cbv zeta. split.
  - intros h' E.
    destruct (handling_sends_one_packet_and_keeps_the_connection 0
                loginserver.Tuint8 samples.sample_NewRequestAuthLogin
                samples.sample_NewRequestPlay samples.sample_NewRequestServerList
                samples.sample_externals 9 []
                (samples.sample_handling samples.zero_status) h' E)
      as (_ & _ & _ & _ & _ & _ & Hsame).
    apply Hsame; discriminate.
  - eexists.
    assert (E : loginserver.handle_packet 0 loginserver.Tuint8
                  samples.sample_NewRequestAuthLogin
                  samples.sample_NewRequestPlay
                  samples.sample_NewRequestServerList samples.sample_externals 0
                  [x61] (samples.sample_handling samples.zero_status)
                = Some (loginserver.send
                          (loginserver.NewLoginOkPacket
                             (loginserver.SessionID samples.sample_client))
                          (loginserver.set_status
                             loginserver.incr_successfulAccountCreation
                             (loginserver.set_account
                                (loginserver.mkAccount 1 [x61] [] 0)
                                (samples.sample_handling samples.zero_status)))))
      by reflexivity.
    destruct (handling_sends_one_packet_and_keeps_the_connection 0
                loginserver.Tuint8 samples.sample_NewRequestAuthLogin
                samples.sample_NewRequestPlay samples.sample_NewRequestServerList
                samples.sample_externals 0 [x61]
                (samples.sample_handling samples.zero_status) _ E)
      as (Hclose & Hreg & _ & _ & _ & Hone & _).
    destruct (Hone (or_introl eq_refl)) as [buffer Htrace].
    exists buffer. split; [exact E|]. split; [exact Htrace|].
    split; [intros c Hin; exact (Hclose c Hin) | exact Hreg].
Defined.

(** The provisioning login increments one counter. *)
Lemma handling_changes_at_most_one_counter_witness :
  let h := samples.sample_handling samples.zero_status in
  exists h',
    loginserver.handle_packet 0 loginserver.Tuint8
      samples.sample_NewRequestAuthLogin samples.sample_NewRequestPlay
      samples.sample_NewRequestServerList samples.sample_externals 0 [x61] h
    = Some h'
    /\ (let st := loginserver.status (loginserver.server h) in
        let st' := loginserver.status (loginserver.server h') in
        st' = st
        \/ st' = loginserver.incr_successfulAccountCreation st
        \/ st' = loginserver.incr_failedAccountCreation st
        \/ st' = loginserver.incr_successfulLogins st
        \/ st' = loginserver.incr_failedLogins st
        \/ st' = loginserver.incr_hackAttempts st).
Proof.
  cbv zeta. eexists.
  assert (E : loginserver.handle_packet 0 loginserver.Tuint8
                samples.sample_NewRequestAuthLogin
                samples.sample_NewRequestPlay
                samples.sample_NewRequestServerList samples.sample_externals 0
                [x61] (samples.sample_handling samples.zero_status)
              = Some (loginserver.send
                        (loginserver.NewLoginOkPacket
                           (loginserver.SessionID samples.sample_client))
                        (loginserver.set_status
                           loginserver.incr_successfulAccountCreation
                           (loginserver.set_account
                              (loginserver.mkAccount 1 [x61] [] 0)
                              (samples.sample_handling samples.zero_status)))))
    by reflexivity.
  split; [exact E|].
  exact (handling_changes_at_most_one_counter 0 loginserver.Tuint8
           samples.sample_NewRequestAuthLogin samples.sample_NewRequestPlay
           samples.sample_NewRequestServerList samples.sample_externals 0
           [x61] _ _ E).
Defined.

(** The sample client's connection fails at the init packet. *)
Lemma failed_connection_is_evicted_witness :
  loginserver.handleClientPackets 0 loginserver.Tuint8
    samples.sample_NewRequestAuthLogin samples.sample_NewRequestPlay
    samples.sample_NewRequestServerList false []
    (samples.sample_handling samples.zero_status)
  = loginserver.Kicked
      (loginserver.mkHandling
         (loginserver.mkLoginServer []
            (loginserver.mkConfig true [loginserver.mkGameServer false])
            samples.zero_status)
         samples.sample_client
         [loginserver.Send loginserver.NewInitPacket;
          loginserver.Close (Some 7%nat)]).
Proof.
  destruct (failed_connection_is_evicted 0 loginserver.Tuint8
              samples.sample_NewRequestAuthLogin samples.sample_NewRequestPlay
              samples.sample_NewRequestServerList []
              samples.sample_externals
              (samples.sample_handling samples.zero_status) 7%nat eq_refl)
    as [Hinit _].
  - cbn. repeat constructor. intros [].
  - exact Hinit.
Defined.

(** A second client joins the sample server and fails at once; another one
    is never accepted. *)
Lemma accepted_clients_and_the_registry_witness :
  let newClient := loginserver.mkClient None [x09]
                     (loginserver.mkAccount 0 [] [] 0) in
  let l := loginserver.server (samples.sample_handling samples.zero_status) in
  let '(l1, started) := loginserver.accept_client newClient None l in
  exists client,
    started = None
    /\ loginserver.clients l1 = [samples.sample_client; client]
    /\ loginserver.Socket client = None
    /\ forall tr, loginserver.kickClient client l1 tr = None.
Proof.
  cbv zeta.
  destruct (accepted_clients_and_the_registry 0 loginserver.Tuint8
              samples.sample_NewRequestAuthLogin samples.sample_NewRequestPlay
              samples.sample_NewRequestServerList
              (loginserver.mkClient None [x09] (loginserver.mkAccount 0 [] [] 0))
              3%nat
              (loginserver.server (samples.sample_handling samples.zero_status))
              [])
    as [_ Hfailed].
  - intros it [<-|[]]. cbn. discriminate.
  - exact Hfailed.
Defined.
